(** * aws-s3-train: the S3 wrapper and the upload page, embedded in Rocq

    The development follows the two source files of the repository:

    - [src/libs/aws/s3/s3.ts]: [s3Client], [uploadFileToS3], [getPublicUrl],
      [generateUploadSignedUrl], [generateGetSignedUrl], [listFilesInS3Path];
    - the page module: [uploadAction] and [UploadPage].

    The AWS SDK, the console, [mime-types] and [next/cache] are outside the
    repository.  The SDK is an interface ([S3Sdk]) over an abstract provider
    state; every call the program makes to it is recorded in the world, so
    that "how many requests, with which fields" is a statement about the
    program.  Asynchronous functions are computations in a state and
    exception monad; the one place where promises run concurrently
    ([Promise.all] in [UploadPage]) is modelled with an explicit pool of
    promises and a schedule that picks which pending request completes
    next. *)

From Stdlib Require Import String Ascii ZArith Lia.
From stdpp Require Import base option list gmap strings pretty.

Open Scope Z_scope.

(** ** JavaScript values the program relies on *)

(** [process.env]: a finite map from variable names to strings; a variable
    that is not set reads as [undefined], here [None]. *)
Abbreviation Env := (gmap string string).

(** Truthiness of a possibly undefined string: [undefined] and the empty
    string are falsy. *)
Definition truthy (v : option string) : bool :=
  match v with
  | Some s => negb (String.eqb s "")
  | None => false
  end.

(** [v || ""] on a possibly undefined string. *)
Definition or_empty (v : option string) : string :=
  match v with
  | Some s => if truthy v then s else ""
  | None => ""
  end.

(** [`${v}`]: a template literal applies ToString, which renders
    [undefined] as the nine characters "undefined". *)
Definition template (v : option string) : string :=
  match v with
  | Some s => s
  | None => "undefined"
  end.

(** What the program throws or receives as a rejection.  [SdkError] stands
    for whatever the object-store client raises; the program never looks
    inside it. *)
Inductive Exn : Type :=
  | SdkError (name message : string)
  | TypeError (message : string)
  | Error (message : string).

(** ** The SDK's data, as far as the program touches it *)

Record Credentials : Type := mkCredentials {
  accessKeyId : string;
  secretAccessKey : string
}.

Record S3ClientConfig : Type := mkS3ClientConfig {
  region : option string;
  credentials : Credentials
}.

Inductive Body : Type :=
  | Buffer (bytes : list Byte.byte)
  | Text (s : string).

Module UploadParams.
Record t : Type := mk {
  Bucket : string;
  Key : string;
  Body : Body;
  ContentType : option string;
  ACL : option string
}.
End UploadParams.

Module PutObjectCommandInput.
Record t : Type := mk {
  Bucket : string;
  Key : string;
  Body : option Body;
  ContentType : option string;
  ACL : option string
}.
(** [input.ACL = acl] *)
Definition set_ACL (acl : option string) (input : t) : t :=
  mk (Bucket input) (Key input) (Body input) (ContentType input) acl.
End PutObjectCommandInput.

Module GetObjectCommandInput.
(** [Key] is typed [string] in [generateGetSignedUrl], but the page passes
    [file.key as string], an unchecked cast of a possibly undefined
    value: at run time the field holds whatever the listing gave. *)
Record t : Type := mk {
  Bucket : string;
  Key : option string
}.
End GetObjectCommandInput.

Module ListObjectsV2CommandInput.
(** The program sets [Bucket] and [Prefix] only; the two other fields are
    the ones a paginating caller would set. *)
Record t : Type := mk {
  Bucket : string;
  Prefix : string;
  ContinuationToken : option string;
  MaxKeys : option Z
}.
End ListObjectsV2CommandInput.

(** One entry of [response.Contents] (the SDK's [_Object]); every field is
    optional in the SDK's types. *)
Module S3Object.
Record t : Type := mk {
  Key : option string;
  LastModified : option Z;
  Size : option Z;
  ETag : option string;
  StorageClass : option string
}.
End S3Object.

Module ListObjectsV2CommandOutput.
Record t : Type := mk {
  Contents : option (list S3Object.t);
  IsTruncated : option bool;
  NextContinuationToken : option string;
  KeyCount : option Z
}.
End ListObjectsV2CommandOutput.

Inductive Command : Type :=
  | PutObjectCommand (input : PutObjectCommandInput.t)
  | ListObjectsV2Command (input : ListObjectsV2CommandInput.t)
  | GetObjectCommand (input : GetObjectCommandInput.t).

(** Calls into the SDK, in the order the program makes them. *)
Inductive SdkCall : Type :=
  | Send (client : S3ClientConfig) (command : Command)
  | GetSignedUrl (client : S3ClientConfig) (command : Command) (expiresIn : Z).

(** The object [listFilesInS3Path] builds for each listed item:
    [{...item, key: item.Key, lastModified: item.LastModified, size: item.Size}]. *)
Module Descriptor.
Record t : Type := mk {
  item : S3Object.t;
  key : option string;
  lastModified : option Z;
  size : option Z
}.
End Descriptor.

(** The object the page builds for each listed file. *)
Module FileUrl.
Record t : Type := mk {
  url : string;
  key : option string;
  size : option Z;
  lastModified : option Z;
  mimeType : option string
}.
End FileUrl.

(** ** Console *)

Inductive Level : Type := LInfo | LError | LLog.

Inductive LogArg : Type :=
  | AStr (s : string)
  | AExn (e : Exn)
  | AParams (p : UploadParams.t)
  | AFiles (l : list Descriptor.t)
  | AMime (m : option string)
  | AUrls (l : list FileUrl.t).

Definition LogEntry : Type := Level * list LogArg.

(** ** The SDK as an interface over a provider state [P]

    [s3_send_put] and [s3_send_list] are [s3Client.send] on the two commands
    the program sends; [s3_getSignedUrl] is [getSignedUrl] of
    [@aws-sdk/s3-request-presigner].  Each returns the provider's error or
    its answer, and the provider's next state. *)
Class S3Sdk (P : Type) : Type := {
  s3_send_put : S3ClientConfig → PutObjectCommandInput.t → P → (Exn + unit) * P;
  s3_send_list : S3ClientConfig → ListObjectsV2CommandInput.t → P →
                 (Exn + ListObjectsV2CommandOutput.t) * P;
  s3_getSignedUrl : S3ClientConfig → Command → Z → P → (Exn + string) * P
}.

(** ** The world and the monad of asynchronous functions *)

Record World (P : Type) : Type := mkWorld {
  provider : P;
  calls : list SdkCall;
  console : list LogEntry;
  revalidated : list string
}.
Arguments mkWorld {P} _ _ _ _.
Arguments provider {P} _.
Arguments calls {P} _.
Arguments console {P} _.
Arguments revalidated {P} _.

Inductive Outcome (A : Type) : Type :=
  | Ok (a : A)
  | Throw (e : Exn).
Arguments Ok {A} _.
Arguments Throw {A} _.

Definition M (P A : Type) : Type := World P → Outcome A * World P.

Section Monad.
Context {P : Type}.

Definition ret {A} (a : A) : M P A := fun w => (Ok a, w).

Definition bind {A B} (m : M P A) (k : A → M P B) : M P B :=
  fun w =>
    match m w with
    | (Ok a, w') => k a w'
    | (Throw e, w') => (Throw e, w')
    end.

Definition throw {A} (e : Exn) : M P A := fun w => (Throw e, w).

(** [try { m } catch (error) { h error }] *)
Definition try_catch {A} (m : M P A) (h : Exn → M P A) : M P A :=
  fun w =>
    match m w with
    | (Ok a, w') => (Ok a, w')
    | (Throw e, w') => h e w'
    end.

Definition when (b : bool) (m : M P unit) : M P unit :=
  if b then m else ret tt.

Definition log (lvl : Level) (args : list LogArg) : M P unit :=
  fun w => (Ok tt, mkWorld (provider w) (calls w) (console w ++ [(lvl, args)])
                           (revalidated w)).

Definition record_call (c : SdkCall) : M P unit :=
  fun w => (Ok tt, mkWorld (provider w) (calls w ++ [c]) (console w)
                           (revalidated w)).

(** Run a provider operation on the provider's state. *)
Definition on_provider {A} (op : P → (Exn + A) * P) : M P A :=
  fun w =>
    let '(r, p') := op (provider w) in
    let w' := mkWorld p' (calls w) (console w) (revalidated w) in
    match r with
    | inl e => (Throw e, w')
    | inr a => (Ok a, w')
    end.

(** [revalidatePath(path)] of [next/cache]. *)
Definition revalidatePath (path : string) : M P unit :=
  fun w => (Ok tt, mkWorld (provider w) (calls w) (console w)
                           (revalidated w ++ [path])).
End Monad.

(** stdpp's monad notations ([x ← m; k] and [m;; k]) are used for [M P]. *)
#[global] Instance M_ret {P} : MRet (M P) := fun A => @ret P A.
#[global] Instance M_bind {P} : MBind (M P) := fun A B k m => @bind P A B m k.

(** ** [src/libs/aws/s3/s3.ts] *)

(** [const s3Client = new S3Client({...})]: the configuration the module
    builds from the environment when it is loaded. *)
Definition s3Client (env : Env) : S3ClientConfig :=
  {| region := env !! "AWS_REGION";
     credentials :=
       {| accessKeyId := or_empty (env !! "AWS_ACCESS_KEY_ID");
          secretAccessKey := or_empty (env !! "AWS_SECRET_ACCESS_KEY") |} |}.

(** [getPublicUrl]: one template literal. *)
Definition getPublicUrl (env : Env) (bucketName key : string) : string :=
  "https://" +:+ bucketName +:+ ".s3." +:+ template (env !! "AWS_REGION") +:+
  ".amazonaws.com/" +:+ key.

Section Wrapper.
Context {P : Type} `{S3Sdk P}.
Variable env : Env.

(** [await s3Client.send(command)] for the two commands that are sent. *)
Definition send_put (input : PutObjectCommandInput.t) : M P unit :=
  record_call (Send (s3Client env) (PutObjectCommand input));;
  on_provider (s3_send_put (s3Client env) input).

Definition send_list (input : ListObjectsV2CommandInput.t)
  : M P ListObjectsV2CommandOutput.t :=
  record_call (Send (s3Client env) (ListObjectsV2Command input));;
  on_provider (s3_send_list (s3Client env) input).

(** [await getSignedUrl(s3Client, command, { expiresIn })] *)
Definition getSignedUrl (command : Command) (expiresIn : Z) : M P string :=
  record_call (GetSignedUrl (s3Client env) command expiresIn);;
  on_provider (s3_getSignedUrl (s3Client env) command expiresIn).

(** Lines 53-62: the object literal, then [if (params.ACL) { uploadParams.ACL
    = params.ACL }].  The literal has no [ACL] field; the assignment adds
    one only for a truthy [params.ACL]. *)
Definition uploadFileToS3_uploadParams (params : UploadParams.t)
  : PutObjectCommandInput.t :=
  let uploadParams :=
    {| PutObjectCommandInput.Bucket := UploadParams.Bucket params;
       PutObjectCommandInput.Key := UploadParams.Key params;
       PutObjectCommandInput.Body := Some (UploadParams.Body params);
       PutObjectCommandInput.ContentType := UploadParams.ContentType params;
       PutObjectCommandInput.ACL := None |} in
  if truthy (UploadParams.ACL params)
  then PutObjectCommandInput.set_ACL (UploadParams.ACL params) uploadParams
  else uploadParams.

Definition uploadFileToS3 (params : UploadParams.t) : M P unit :=
  let uploadParams := uploadFileToS3_uploadParams params in
  try_catch
    (send_put uploadParams;;
     log LInfo [AStr ("Upload successful: s3://" +:+ UploadParams.Bucket params
                      +:+ "/" +:+ UploadParams.Key params)])
    (fun error =>
       log LError [AStr "Error during file upload:"; AExn error];;
       throw error).

(** A default parameter [expiresIn = 300] takes its default when the
    argument is omitted ([None]). *)
Definition generateUploadSignedUrl (bucket key contentType : string)
    (expiresIn : option Z) : M P string :=
  let expiresIn := default 300 expiresIn in
  let command :=
    PutObjectCommand
      {| PutObjectCommandInput.Bucket := bucket;
         PutObjectCommandInput.Key := key;
         PutObjectCommandInput.Body := None;
         PutObjectCommandInput.ContentType := Some contentType;
         PutObjectCommandInput.ACL := None |} in
  getSignedUrl command expiresIn.

(** [key] is what the caller passes at run time: the page passes
    [file.key as string], which may be [undefined]. *)
Definition generateGetSignedUrl (bucket : string) (key : option string)
    (expiresIn : option Z) : M P string :=
  let expiresIn := default 300 expiresIn in
  let command :=
    GetObjectCommand
      {| GetObjectCommandInput.Bucket := bucket;
         GetObjectCommandInput.Key := key |} in
  getSignedUrl command expiresIn.

(** The callback of [response.Contents?.map(...)]. *)
Definition describe (item : S3Object.t) : Descriptor.t :=
  {| Descriptor.item := item;
     Descriptor.key := S3Object.Key item;
     Descriptor.lastModified := S3Object.LastModified item;
     Descriptor.size := S3Object.Size item |}.

Definition listFilesInS3Path (bucket prefix : string) : M P (list Descriptor.t) :=
  try_catch
    (let command :=
       {| ListObjectsV2CommandInput.Bucket := bucket;
          ListObjectsV2CommandInput.Prefix := prefix;
          ListObjectsV2CommandInput.ContinuationToken := None;
          ListObjectsV2CommandInput.MaxKeys := None |} in
     response ← send_list command;
     (* [undefined || []] is [[]]; an array, even empty, is truthy *)
     mret (default [] (map describe <$> ListObjectsV2CommandOutput.Contents response)))
    (fun error =>
       log LError [AStr "Error listing S3 files:"; AExn error];;
       throw error).
End Wrapper.


(** ** The page module: [uploadAction] *)

(** A [File] of the form data: [size] is the number of bytes it holds. *)
Module File.
Record t : Type := mk {
  name : string;
  type : string;
  content : list Byte.byte
}.
Definition size (f : t) : Z := Z.of_nat (length (content f)).
End File.

Inductive FormDataEntryValue : Type :=
  | EntryFile (f : File.t)
  | EntryString (s : string).

(** [FormData]: an ordered list of entries; names may repeat. *)
Definition FormData : Type := list (string * FormDataEntryValue).

(** [formData.get(name)]: the first entry of that name, or [null]. *)
Fixpoint FormData_get (name : string) (formData : FormData)
  : option FormDataEntryValue :=
  match formData with
  | [] => None
  | (n, v) :: rest => if String.eqb n name then Some v else FormData_get name rest
  end.

(** [file] holds what [formData.get("file") as File] returned: the cast
    checks nothing, so it is [null], a [File] or a string at run time. *)
Definition entry_truthy (file : option FormDataEntryValue) : bool :=
  match file with
  | None => false
  | Some (EntryFile _) => true
  | Some (EntryString s) => negb (String.eqb s "")
  end.

(** [v === s] for a string literal [s]. *)
Definition strict_eq (v : option FormDataEntryValue) (s : string) : bool :=
  match v with
  | Some (EntryString t) => String.eqb t s
  | _ => false
  end.

Section Properties.
Context {P : Type}.

(** [file.size]: reading a property of [null] throws a TypeError; a string
    has no [size] property. *)
Definition get_size (file : option FormDataEntryValue) : M P (option Z) :=
  match file with
  | None => throw (TypeError "Cannot read properties of null (reading 'size')")
  | Some (EntryFile f) => mret (Some (File.size f))
  | Some (EntryString _) => mret None
  end.

Definition get_name (file : option FormDataEntryValue) : M P (option string) :=
  match file with
  | None => throw (TypeError "Cannot read properties of null (reading 'name')")
  | Some (EntryFile f) => mret (Some (File.name f))
  | Some (EntryString _) => mret None
  end.

Definition get_type (file : option FormDataEntryValue) : M P (option string) :=
  match file with
  | None => throw (TypeError "Cannot read properties of null (reading 'type')")
  | Some (EntryFile f) => mret (Some (File.type f))
  | Some (EntryString _) => mret None
  end.

(** [await file.arrayBuffer()] *)
Definition arrayBuffer (file : option FormDataEntryValue) : M P (list Byte.byte) :=
  match file with
  | None => throw (TypeError "Cannot read properties of null (reading 'arrayBuffer')")
  | Some (EntryFile f) => mret (File.content f)
  | Some (EntryString _) => throw (TypeError "file.arrayBuffer is not a function")
  end.
End Properties.

(** [value === 0] on a possibly undefined number. *)
Definition is_zero (value : option Z) : bool :=
  match value with
  | Some z => Z.eqb z 0
  | None => false
  end.

Section UploadAction.
Context {P : Type} `{S3Sdk P}.
Variable env : Env.

(** Lines 34-40: the [uploadParams] literal of [uploadAction]. *)
Definition uploadAction_uploadParams (name type : option string)
    (buffer : list Byte.byte) (isPrivate : bool) : UploadParams.t :=
  {| UploadParams.Bucket := or_empty (env !! "AWS_BUCKET_NAME");
     UploadParams.Key := "test/" +:+ template name;
     UploadParams.Body := Buffer buffer;
     UploadParams.ContentType := type;
     UploadParams.ACL := Some (if isPrivate then "private" else "public-read") |}.

Definition uploadAction (formData : FormData) : M P unit :=
  let file := FormData_get "file" formData in
  when (negb (entry_truthy file)) (log LError [AStr "File is required"]);;
  size ← get_size file;
  when (is_zero size) (log LError [AStr "File is empty"]);;
  let privateFile := FormData_get "private" formData in
  let isPrivate := strict_eq privateFile "on" || strict_eq privateFile "true" in
  name ← get_name file;
  when (negb (truthy name)) (throw (Error "File name is required"));;
  arrayBuffer ← arrayBuffer file;
  let buffer := arrayBuffer in
  type ← get_type file;
  let uploadParams := uploadAction_uploadParams name type buffer isPrivate in
  log LLog [AParams uploadParams];;
  uploadFileToS3 env uploadParams;;
  revalidatePath "/upload".
End UploadAction.


(** ** The page module: [UploadPage]

    Only the data the page computes is modelled ([fileUrls]); the JSX that
    renders it is not. *)

(** [unhide === "on"] *)
Definition is_on (unhide : option string) : bool :=
  match unhide with
  | Some s => String.eqb s "on"
  | None => false
  end.

(** A promise returned by the [async (file) => {...}] callback of
    [files.map].  The callback has one suspension point, [await
    generateGetSignedUrl(...)]: a pending promise remembers the callback's
    own [file] and [mimeType] (each call has its own closure) and the
    [getSignedUrl] request it waits for. *)
Inductive Promise : Type :=
  | Pending (file : Descriptor.t) (mimeType : option string)
            (command : Command) (expiresIn : Z)
  | Fulfilled (value : FileUrl.t)
  | Rejected (reason : Exn).

Section UploadPage.
Context {P : Type} `{S3Sdk P}.
Variable env : Env.
(** [lookup] of [mime-types]; [false] is [None]. *)
Variable lookup : string → option string.

(** Lines 90-96: the object the callback returns. *)
Definition fileUrl (file : Descriptor.t) (mimeType : option string) (url : string)
  : FileUrl.t :=
  {| FileUrl.url := url;
     FileUrl.key := Descriptor.key file;
     FileUrl.size := Descriptor.size file;
     FileUrl.lastModified := Descriptor.lastModified file;
     FileUrl.mimeType := mimeType |}.

(** The callback as one asynchronous function, read top to bottom.
    [lookup] answers [false] for a path that is not a string. *)
Definition UploadPage_callback (unhide : option string) (file : Descriptor.t)
  : M P FileUrl.t :=
  let mimeType := Descriptor.key file ≫= lookup in
  log LLog [AStr "MIME Type:"; AMime mimeType];;
  url ← (if is_on unhide
         then generateGetSignedUrl env "teqhire-store-dev" (Descriptor.key file)
                (Some 10)
         else mret (getPublicUrl env (or_empty (env !! "AWS_BUCKET_NAME"))
                      (template (Descriptor.key file))));
  mret (fileUrl file mimeType url).

(** The same callback as the event loop runs it.  [callback_start] is the
    synchronous part, up to the [await]: it logs, and either returns an
    already fulfilled promise (public URL) or issues the [getSignedUrl]
    request and suspends. *)
Definition callback_start (unhide : option string) (file : Descriptor.t)
  : M P Promise :=
  let mimeType := Descriptor.key file ≫= lookup in
  log LLog [AStr "MIME Type:"; AMime mimeType];;
  if is_on unhide
  then
    let command :=
      GetObjectCommand
        {| GetObjectCommandInput.Bucket := "teqhire-store-dev";
           GetObjectCommandInput.Key := Descriptor.key file |} in
    record_call (GetSignedUrl (s3Client env) command 10);;
    mret (Pending file mimeType command 10)
  else
    mret (Fulfilled (fileUrl file mimeType
                       (getPublicUrl env (or_empty (env !! "AWS_BUCKET_NAME"))
                          (template (Descriptor.key file))))).

(** The callback resumes with the answer to its own request. *)
Definition settle (file : Descriptor.t) (mimeType : option string)
    (answer : Exn + string) : Promise :=
  match answer with
  | inr url => Fulfilled (fileUrl file mimeType url)
  | inl e => Rejected e
  end.

(** [files.map(callback)]: the callbacks start in list order. *)
Fixpoint map_start (unhide : option string) (files : list Descriptor.t)
  : M P (list Promise) :=
  match files with
  | [] => mret []
  | file :: rest =>
      p ← callback_start unhide file;
      ps ← map_start unhide rest;
      mret (p :: ps)
  end.

(** The state of [Promise.all]: the promises by index, the reason of the
    first rejection if there was one, and the world. *)
Definition Joining : Type := list Promise * option Exn * World P.

(** The request of promise [j] completes.  Nothing happens when [j] is not
    the index of a pending promise. *)
Definition complete (st : Joining) (j : nat) : Joining :=
  let '(pool, rejection, w) := st in
  match pool !! j with
  | Some (Pending file mimeType command expiresIn) =>
      let '(answer, p') :=
        s3_getSignedUrl (s3Client env) command expiresIn (provider w) in
      let w' := mkWorld p' (calls w) (console w) (revalidated w) in
      let rejection' :=
        match rejection, answer with
        | None, inl e => Some e
        | _, _ => rejection
        end in
      (<[j := settle file mimeType answer]> pool, rejection', w')
  | _ => st
  end.

(** A schedule is the order in which the pending requests complete, as a
    list of promise indices.  Requests a schedule does not mention complete
    afterwards in index order, so every list of indices denotes a complete
    run and every interleaving of the [n] requests is the run of some
    schedule (itself, as a permutation of [0..n-1]). *)
Definition run_schedule (schedule : list nat) (st : Joining) : Joining :=
  let '(pool, _, _) := st in
  foldl complete st (schedule ++ seq 0 (length pool)).

Definition fulfilled_value (p : Promise) : option FileUrl.t :=
  match p with
  | Fulfilled v => Some v
  | _ => None
  end.

(** [await Promise.all(promises)]: rejected with the first rejection, else
    fulfilled with the values in index order. *)
Definition promise_all (schedule : list nat) (promises : list Promise)
  : M P (list FileUrl.t) :=
  fun w =>
    let '(pool, rejection, w') := run_schedule schedule (promises, None, w) in
    match rejection with
    | Some e => (Throw e, w')
    | None => (Ok (omap fulfilled_value pool), w')
    end.

(** [UploadPage], up to the value of [fileUrls]. *)
Definition UploadPage (unhide : option string) (schedule : list nat)
  : M P (list FileUrl.t) :=
  files ← listFilesInS3Path env "teqhire-store-dev" "test";
  log LLog [AStr "Files in S3:"; AFiles files];;
  promises ← map_start unhide files;
  fileUrls ← promise_all schedule promises;
  log LLog [AStr "Public URLs:"; AUrls fileUrls];;
  mret fileUrls.
End UploadPage.


(** ** A reference provider

    An instance of [S3Sdk] that behaves like a small object store: objects
    live in buckets under keys, a listing returns the objects of the bucket
    whose key starts with the prefix, one page at a time, and a signed URL
    names the bucket, the key and the lifetime and carries a signature that
    changes with every request.  It instantiates the interface at concrete
    inputs; the theorems about the program hold for every instance. *)
Module RefS3.
Record StoredObject : Type := mkObject {
  bucket : string;
  key : string;
  body : option Body;
  contentType : option string;
  acl : option string;
  modified : Z
}.

Record t : Type := mk {
  objects : list StoredObject;
  (** the provider's default page size (1000 for S3) *)
  page_size : nat;
  (** grows by one character with every signature *)
  nonce : string;
  (** when set, every request fails with this error *)
  outage : option Exn
}.

Definition body_size (b : option Body) : Z :=
  match b with
  | Some (Buffer bytes) => Z.of_nat (length bytes)
  | Some (Text s) => Z.of_nat (String.length s)
  | None => 0
  end.

Definition to_item (o : StoredObject) : S3Object.t :=
  {| S3Object.Key := Some (key o);
     S3Object.LastModified := Some (modified o);
     S3Object.Size := Some (body_size (body o));
     S3Object.ETag := None;
     S3Object.StorageClass := Some "STANDARD" |}.

Definition matches (bucketName prefix : string) (o : StoredObject) : bool :=
  String.eqb (bucket o) bucketName && String.prefix prefix (key o).

(** The objects after the one a continuation token names. *)
Fixpoint after (token : string) (l : list StoredObject) : list StoredObject :=
  match l with
  | [] => []
  | o :: rest => if String.eqb (key o) token then rest else after token rest
  end.

Definition page_limit (s : t) (maxKeys : option Z) : nat :=
  match maxKeys with
  | Some n => Nat.min (Z.to_nat n) (page_size s)
  | None => page_size s
  end.

Definition list_objects (input : ListObjectsV2CommandInput.t) (s : t)
  : ListObjectsV2CommandOutput.t :=
  let matching :=
    filter (λ o, matches (ListObjectsV2CommandInput.Bucket input)
                   (ListObjectsV2CommandInput.Prefix input) o = true)
           (objects s) in
  let remaining :=
    match ListObjectsV2CommandInput.ContinuationToken input with
    | Some token => after token matching
    | None => matching
    end in
  let limit := page_limit s (ListObjectsV2CommandInput.MaxKeys input) in
  let page := take limit remaining in
  let truncated := negb (Nat.leb (length remaining) limit) in
  {| ListObjectsV2CommandOutput.Contents :=
       match page with [] => None | _ => Some (map to_item page) end;
     ListObjectsV2CommandOutput.IsTruncated := Some truncated;
     ListObjectsV2CommandOutput.NextContinuationToken :=
       if truncated then key <$> last page else None;
     ListObjectsV2CommandOutput.KeyCount := Some (Z.of_nat (length page)) |}.

Definition put_object (input : PutObjectCommandInput.t) (s : t) : t :=
  let o :=
    {| bucket := PutObjectCommandInput.Bucket input;
       key := PutObjectCommandInput.Key input;
       body := PutObjectCommandInput.Body input;
       contentType := PutObjectCommandInput.ContentType input;
       acl := PutObjectCommandInput.ACL input;
       modified := Z.of_nat (length (objects s)) |} in
  let others :=
    filter (λ o', (String.eqb (bucket o') (bucket o)
                   && String.eqb (key o') (key o)) = false) (objects s) in
  mk (others ++ [o]) (page_size s) (nonce s) (outage s).

Definition sign (command : Command) (expiresIn : Z) (s : t) : Exn + string :=
  let url bucketName k :=
    "https://" +:+ bucketName +:+ ".s3.amazonaws.com/" +:+ k +:+
    "?X-Amz-Expires=" +:+ pretty expiresIn +:+ "&X-Amz-Signature=" +:+ nonce s in
  match command with
  | GetObjectCommand input =>
      match GetObjectCommandInput.Key input with
      | Some k => inr (url (GetObjectCommandInput.Bucket input) k)
      | None => inl (SdkError "Error" "No value provided for input HTTP label: Key.")
      end
  | PutObjectCommand input =>
      inr (url (PutObjectCommandInput.Bucket input) (PutObjectCommandInput.Key input))
  | ListObjectsV2Command input =>
      inr (url (ListObjectsV2CommandInput.Bucket input) "")
  end.

#[global] Instance sdk : S3Sdk t := {|
  s3_send_put _ input s :=
    match outage s with
    | Some e => (inl e, s)
    | None => (inr tt, put_object input s)
    end;
  s3_send_list _ input s :=
    match outage s with
    | Some e => (inl e, s)
    | None => (inr (list_objects input s), s)
    end;
  s3_getSignedUrl _ command expiresIn s :=
    match outage s with
    | Some e => (inl e, s)
    | None => (sign command expiresIn s,
               mk (objects s) (page_size s) (nonce s +:+ "x") (outage s))
    end
|}.

Definition world (s : t) : World t := mkWorld s [] [] [].
End RefS3.


(** ** Predicates and inputs used in the statements *)

(** JavaScript's [key.startsWith(prefix)] on a possibly undefined key. *)
Definition key_starts_with (prefix : string) (key : option string) : bool :=
  match key with
  | Some k => String.prefix prefix k
  | None => false
  end.

(** The items of a listing response, with an absent [Contents] read as no
    items. *)
Definition contents (response : ListObjectsV2CommandOutput.t) : list S3Object.t :=
  default [] (ListObjectsV2CommandOutput.Contents response).

(** The request [listFilesInS3Path] builds. *)
Definition list_command (bucket prefix : string) : ListObjectsV2CommandInput.t :=
  {| ListObjectsV2CommandInput.Bucket := bucket;
     ListObjectsV2CommandInput.Prefix := prefix;
     ListObjectsV2CommandInput.ContinuationToken := None;
     ListObjectsV2CommandInput.MaxKeys := None |}.

(** The call [listFilesInS3Path] makes. *)
Definition list_call (env : Env) (bucket prefix : string) : SdkCall :=
  Send (s3Client env) (ListObjectsV2Command (list_command bucket prefix)).

(** The objects of the reference store that a listing of [bucket] under
    [prefix] ranges over, in store order. *)
Definition matching (bucket prefix : string) (s : RefS3.t)
  : list RefS3.StoredObject :=
  filter (λ o, RefS3.matches bucket prefix o = true) (RefS3.objects s).

(** The call [uploadFileToS3] makes. *)
Definition put_call (env : Env) (params : UploadParams.t) : SdkCall :=
  Send (s3Client env) (PutObjectCommand (uploadFileToS3_uploadParams params)).

(** *** The syntax of an https URL

    The generic URI syntax of RFC 3986, section 3, for the scheme https
    with a registered name as host:
    [https://] host path-abempty [?query] [#fragment].  The character
    classes are those of the RFC; a percent sign is allowed only as the
    start of an escape, a percent sign and two hexadecimal digits. *)

Definition in_range (lo hi : nat) (c : ascii) : bool :=
  Nat.leb lo (nat_of_ascii c) && Nat.leb (nat_of_ascii c) hi.

Definition one_of (chars : string) (c : ascii) : bool :=
  existsb (Ascii.eqb c) (list_ascii_of_string chars).

Definition is_alpha (c : ascii) : bool := in_range 65 90 c || in_range 97 122 c.

Definition is_digit (c : ascii) : bool := in_range 48 57 c.

Definition is_hexdig (c : ascii) : bool :=
  is_digit c || in_range 65 70 c || in_range 97 102 c.

Definition is_unreserved (c : ascii) : bool :=
  is_alpha c || is_digit c || one_of "-._~" c.

Definition is_sub_delim (c : ascii) : bool := one_of "!$&'()*+,;=" c.

(** reg-name *)
Definition is_host_char (c : ascii) : bool := is_unreserved c || is_sub_delim c.

Definition is_pchar (c : ascii) : bool :=
  is_unreserved c || is_sub_delim c || one_of ":@" c.

(** path-abempty: segments of pchar separated by slashes *)
Definition is_path_char (c : ascii) : bool := is_pchar c || one_of "/" c.

(** query and fragment *)
Definition is_query_char (c : ascii) : bool := is_pchar c || one_of "/?" c.


(** [s] is made of characters of the class [ok] and of percent escapes. *)
Fixpoint escaped (ok : ascii → bool) (s : string) : bool :=
  match s with
  | EmptyString => true
  | String c rest =>
      if Ascii.eqb c "%"
      then match rest with
           | String h1 (String h2 rest') =>
               is_hexdig h1 && is_hexdig h2 && escaped ok rest'
           | _ => false
           end
      else ok c && escaped ok rest
  end.

(** [s] cut before its first character in [stop]. *)
Fixpoint break_at (stop : ascii → bool) (s : string) : string * string :=
  match s with
  | EmptyString => (EmptyString, EmptyString)
  | String c rest =>
      if stop c then (EmptyString, s)
      else let '(before, after) := break_at stop rest in (String c before, after)
  end.

Fixpoint strip_prefix (prefix s : string) : option string :=
  match prefix with
  | EmptyString => Some s
  | String a prefix' =>
      match s with
      | String b s' => if Ascii.eqb a b then strip_prefix prefix' s' else None
      | EmptyString => None
      end
  end.

Definition valid_url (url : string) : bool :=
  match strip_prefix "https://" url with
  | None => false
  | Some rest =>
      let '(host, after_host) := break_at (one_of "/?#") rest in
      let '(path, after_path) := break_at (one_of "?#") after_host in
      let '(query, fragment) := break_at (one_of "#") after_path in
      negb (String.eqb host "")
      && escaped is_host_char host
      && escaped is_path_char path
      && match query with
         | EmptyString => true
         | String _ q => escaped is_query_char q
         end
      && match fragment with
         | EmptyString => true
         | String _ f => escaped is_query_char f
         end
  end.

(** [url] is what the page computes from [key]: in signed mode an answer of
    the provider to the [getSignedUrl] request for that key with a lifetime
    of 10 seconds, otherwise the public URL of that key. *)
Definition generated_from {P : Type} `{S3Sdk P} (env : Env)
    (unhide : option string) (key : option string) (url : string) : Prop :=
  if is_on unhide
  then ∃ p p' : P,
         s3_getSignedUrl (s3Client env)
           (GetObjectCommand
              {| GetObjectCommandInput.Bucket := "teqhire-store-dev";
                 GetObjectCommandInput.Key := key |})
           10 p = (inr url, p')
  else url = getPublicUrl env (or_empty (env !! "AWS_BUCKET_NAME")) (template key).

(** The [getSignedUrl] call the page makes for a listed file. *)
Definition sign_call (env : Env) (file : Descriptor.t) : SdkCall :=
  GetSignedUrl (s3Client env)
    (GetObjectCommand
       {| GetObjectCommandInput.Bucket := "teqhire-store-dev";
          GetObjectCommandInput.Key := Descriptor.key file |})
    10.

Definition is_pending (p : Promise) : bool :=
  match p with
  | Pending _ _ _ _ => true
  | _ => false
  end.

Definition is_rejected (p : Promise) : bool :=
  match p with
  | Rejected _ => true
  | _ => false
  end.

(** What the promise at the index of [file] can be while [Promise.all]
    waits: still pending on the request for that file's key, fulfilled with
    that file's key and a URL generated from it, or rejected. *)
Definition promise_for {P : Type} `{S3Sdk P} (env : Env) (unhide : option string)
    (file : Descriptor.t) (p : Promise) : Prop :=
  match p with
  | Pending f _ command expiresIn =>
      f = file
      ∧ command
        = GetObjectCommand
            {| GetObjectCommandInput.Bucket := "teqhire-store-dev";
               GetObjectCommandInput.Key := Descriptor.key file |}
      ∧ expiresIn = 10
      ∧ is_on unhide = true
  | Fulfilled r =>
      FileUrl.key r = Descriptor.key file
      ∧ generated_from env unhide (Descriptor.key file) (FileUrl.url r)
  | Rejected _ => True
  end.

(** The same for a value of the joined array. *)
Definition fileUrl_for {P : Type} `{S3Sdk P} (env : Env) (unhide : option string)
    (file : Descriptor.t) (r : FileUrl.t) : Prop :=
  FileUrl.key r = Descriptor.key file
  ∧ generated_from env unhide (Descriptor.key file) (FileUrl.url r).

Module Sample.
Definition env : Env :=
  {[ "AWS_REGION" := "us-east-1"; "AWS_BUCKET_NAME" := "teqhire-store-dev";
     "AWS_ACCESS_KEY_ID" := "AKIDEXAMPLE"; "AWS_SECRET_ACCESS_KEY" := "secret" ]}.

Definition object (key : string) : RefS3.StoredObject :=
  RefS3.mkObject "teqhire-store-dev" key (Some (Text "abc")) None None 0.

(** Three objects under "test", one outside, pages of two. *)
Definition store : RefS3.t :=
  RefS3.mk [object "test/a.png"; object "other/b.txt"; object "test/c.pdf";
            object "test/d.txt"] 2 "" None.

Definition empty_store : RefS3.t := RefS3.mk [] 1000 "" None.

Definition access_denied : Exn := SdkError "AccessDenied" "Access Denied".

Definition down : RefS3.t := RefS3.mk [] 1000 "" (Some access_denied).

Definition params (acl : option string) : UploadParams.t :=
  {| UploadParams.Bucket := "teqhire-store-dev";
     UploadParams.Key := "test/a.png";
     UploadParams.Body := Text "abc";
     UploadParams.ContentType := Some "image/png";
     UploadParams.ACL := acl |}.

Definition mime (path : string) : option string :=
  if String.eqb path "test/a.png" then Some "image/png" else None.
End Sample.

(** ** The page module: what is rendered for a file

    Lines 196-215 of the page: two conditional blocks decide, from
    [file.mimeType] alone, whether a file is shown with an inline image and
    whether it is shown with a "Download" link. *)

(** [file.mimeType && file.mimeType?.startsWith("image/") && (<img .../>)] *)
Definition shows_image (mimeType : option string) : bool :=
  truthy mimeType
  && match mimeType with
     | Some s => String.prefix "image/" s
     | None => false
     end.

(** [file.mimeType && !file.mimeType?.startsWith("image/") && (<a ...>)] *)
Definition shows_download (mimeType : option string) : bool :=
  truthy mimeType
  && negb match mimeType with
          | Some s => String.prefix "image/" s
          | None => false
          end.

(** ** Further predicates and inputs *)

(** [file.name] of a form entry that is not [null]. *)
Definition entry_name (entry : FormDataEntryValue) : option string :=
  match entry with
  | EntryFile f => Some (File.name f)
  | EntryString _ => None
  end.

(** The value of [isPrivate] in [uploadAction]. *)
Definition isPrivate (formData : FormData) : bool :=
  strict_eq (FormData_get "private" formData) "on"
  || strict_eq (FormData_get "private" formData) "true".

(** The request [uploadAction] sends for a named file. *)
Definition upload_request (env : Env) (formData : FormData) (f : File.t)
  : PutObjectCommandInput.t :=
  {| PutObjectCommandInput.Bucket := or_empty (env !! "AWS_BUCKET_NAME");
     PutObjectCommandInput.Key := "test/" +:+ File.name f;
     PutObjectCommandInput.Body := Some (Buffer (File.content f));
     PutObjectCommandInput.ContentType := Some (File.type f);
     PutObjectCommandInput.ACL :=
       Some (if isPrivate formData then "private" else "public-read") |}.

(** The entry of [fileUrls] for a file in public mode. *)
Definition public_fileUrl (env : Env) (lookup : string → option string)
    (file : Descriptor.t) : FileUrl.t :=
  fileUrl file (Descriptor.key file ≫= lookup)
    (getPublicUrl env (or_empty (env !! "AWS_BUCKET_NAME"))
       (template (Descriptor.key file))).

(** The fields of an entry of [fileUrls] that are copied from the listing. *)
Definition fileUrl_meta (lookup : string → option string)
    (file : Descriptor.t) (r : FileUrl.t) : Prop :=
  FileUrl.key r = Descriptor.key file
  ∧ FileUrl.size r = Descriptor.size file
  ∧ FileUrl.lastModified r = Descriptor.lastModified file
  ∧ FileUrl.mimeType r = Descriptor.key file ≫= lookup.

Definition promise_meta (lookup : string → option string)
    (file : Descriptor.t) (p : Promise) : Prop :=
  match p with
  | Pending f mimeType _ _ =>
      f = file ∧ mimeType = Descriptor.key file ≫= lookup
  | Fulfilled r => fileUrl_meta lookup file r
  | Rejected _ => True
  end.

(** [e] is the provider's answer to the page's [getSignedUrl] request for
    one of the listed files. *)
Definition rejected_by {P : Type} `{S3Sdk P} (env : Env)
    (files : list Descriptor.t) (e : Exn) : Prop :=
  ∃ file (p p' : P),
    file ∈ files
    ∧ s3_getSignedUrl (s3Client env)
        (GetObjectCommand
           {| GetObjectCommandInput.Bucket := "teqhire-store-dev";
              GetObjectCommandInput.Key := Descriptor.key file |})
        10 p = (inl e, p').

(** A provider that lists like the reference provider but cannot sign:
    every [getSignedUrl] request is answered with an error. *)
Module NoSigner.
Record t : Type := mk { store : RefS3.t }.

Definition refused : Exn :=
  SdkError "CredentialsProviderError" "Could not load credentials".

(** Not registered as an instance: it is passed by name where used. *)
Definition sdk : S3Sdk t := {|
  s3_send_put client input s :=
    let '(answer, store') := s3_send_put client input (store s) in
    (answer, mk store');
  s3_send_list client input s :=
    let '(answer, store') := s3_send_list client input (store s) in
    (answer, mk store');
  s3_getSignedUrl _ _ _ s := (inl refused, s)
|}.

Definition world (s : RefS3.t) : World t := mkWorld (mk s) [] [] [].
End NoSigner.

(** A provider that stores like the reference provider but ignores the
    [Prefix] of a list request: it answers with the first page of the whole
    bucket.  Not registered as an instance. *)
Module IgnoresPrefix.
Definition sdk : S3Sdk RefS3.t := {|
  s3_send_put := @s3_send_put RefS3.t RefS3.sdk;
  s3_send_list client input s :=
    @s3_send_list RefS3.t RefS3.sdk client
      {| ListObjectsV2CommandInput.Bucket := ListObjectsV2CommandInput.Bucket input;
         ListObjectsV2CommandInput.Prefix := "";
         ListObjectsV2CommandInput.ContinuationToken :=
           ListObjectsV2CommandInput.ContinuationToken input;
         ListObjectsV2CommandInput.MaxKeys :=
           ListObjectsV2CommandInput.MaxKeys input |}
      s;
  s3_getSignedUrl := @s3_getSignedUrl RefS3.t RefS3.sdk
|}.
End IgnoresPrefix.

Module SampleForm.
Definition photo : File.t :=
  File.mk "a.png" "image/png" [Byte.x89; Byte.x50; Byte.x4e; Byte.x47].

Definition empty_named : File.t := File.mk "empty.txt" "text/plain" [].

(** What a browser submits for a file input with no file chosen. *)
Definition nothing_chosen : File.t := File.mk "" "application/octet-stream" [].

Definition public_form : FormData := [("file", EntryFile photo)].

Definition private_form : FormData :=
  [("file", EntryFile photo); ("private", EntryString "on")].

Definition empty_form : FormData := [("file", EntryFile empty_named)].

Definition unnamed_form : FormData := [("file", EntryFile nothing_chosen)].

Definition text_form : FormData := [("file", EntryString "a.png")].
End SampleForm.

(** * Properties *)

(** ** Stepping the monad *)

Lemma bind_run {P A B} (m : M P A) (k : A → M P B) (w : World P) :
  (m ≫= k) w = match m w with
               | (Ok a, w') => k a w'
               | (Throw e, w') => (Throw e, w')
               end.
Proof. reflexivity. Qed.

Lemma bind_ok {P A B} (m : M P A) (k : A → M P B) (w w' : World P) (a : A) :
  m w = (Ok a, w') → (m ≫= k) w = k a w'.
Proof. intros Hm. rewrite bind_run, Hm. reflexivity. Qed.

Lemma bind_throw {P A B} (m : M P A) (k : A → M P B) (w w' : World P) (e : Exn) :
  m w = (Throw e, w') → (m ≫= k) w = (Throw e, w').
Proof. intros Hm. rewrite bind_run, Hm. reflexivity. Qed.

Lemma bind_ok_inv {P A B} (m : M P A) (k : A → M P B) (w w' : World P) (b : B) :
  (m ≫= k) w = (Ok b, w') → ∃ a w1, m w = (Ok a, w1) ∧ k a w1 = (Ok b, w').
Proof.
  rewrite bind_run. destruct (m w) as [[a|e] w1]; intros Hk.
  - eauto.
  - discriminate.
Qed.

Ltac async_unfold :=
  unfold mbind, mret, M_bind, M_ret, bind, ret, throw, try_catch, when, log,
    record_call, on_provider, revalidatePath in *.

(** ** Truthiness *)

Lemma truthy_false (v : option string) :
  truthy v = false ↔ v = None ∨ v = Some "".
Proof.
  destruct v as [s|]; simpl.
  - rewrite negb_false_iff, String.eqb_eq. split.
    + intros ->. by right.
    + intros [?|[= ->]]; done.
  - split; [by left | done].
Qed.

Lemma or_empty_None : or_empty None = "".
Proof. reflexivity. Qed.

Lemma or_empty_Some (s : string) : or_empty (Some s) = s.
Proof.
  unfold or_empty, truthy. destruct (String.eqb_spec s "") as [->|]; done.
Qed.

(** ** [getPublicUrl] *)

Lemma append_cons (x : ascii) (a b : string) :
  String x a +:+ b = String x (a +:+ b).
Proof. reflexivity. Qed.


Lemma prefix_append (a b : string) : String.prefix a (a +:+ b) = true.
Proof.
  induction a as [|x a IH].
  - by destruct b.
  - rewrite append_cons. simpl. by destruct (ascii_dec x x).
Qed.

Lemma append_nonempty_r (a b : string) : b ≠ "" → a +:+ b ≠ "".
Proof. destruct a; [done | rewrite append_cons; discriminate]. Qed.

(** *** Facts about the URL syntax *)












(** The syntax does admit what it should: escapes, a query and a
    fragment. *)
Lemma valid_url_examples :
  valid_url "https://b.s3.us-east-1.amazonaws.com/my%20file.png" = true
  ∧ valid_url "https://b.s3.us-east-1.amazonaws.com/a/b?x=1&y=2#top" = true
  ∧ valid_url "https://b.s3.us-east-1.amazonaws.com" = true
  ∧ valid_url "http://b.s3.us-east-1.amazonaws.com/a" = false
  ∧ valid_url "https:///a" = false.
Proof. repeat split; vm_compute; reflexivity. Qed.

(** ** Configuration read from the environment *)

(** C5, as the code has it.  With the variable absent, the access key, the
    secret key and the bucket name are the empty string.  The region has no
    such default: the client configuration holds [undefined], and
    [getPublicUrl] renders it as the text "undefined".  Building the
    configuration never fails. *)
Theorem absent_configuration (env : Env) :
  (env !! "AWS_ACCESS_KEY_ID" = None →
     accessKeyId (credentials (s3Client env)) = "")
  ∧ (env !! "AWS_SECRET_ACCESS_KEY" = None →
       secretAccessKey (credentials (s3Client env)) = "")
  ∧ (env !! "AWS_BUCKET_NAME" = None →
       ∀ name type buffer isPrivate,
         UploadParams.Bucket
           (uploadAction_uploadParams env name type buffer isPrivate) = "")
  ∧ (env !! "AWS_REGION" = None →
       region (s3Client env) = None
       ∧ ∀ bucketName key,
           getPublicUrl env bucketName key
           = "https://" +:+ bucketName +:+ ".s3.undefined.amazonaws.com/" +:+ key).
Proof.
  unfold s3Client, uploadAction_uploadParams, getPublicUrl; simpl.
  split; [by intros -> |].
  split; [by intros -> |].
  split; [by intros -> |].
  intros Hregion. rewrite Hregion. by split.
Qed.

Lemma absent_configuration_witness :
  (∅ : Env) !! "AWS_REGION" = None
  ∧ region (s3Client ∅) = None
  ∧ accessKeyId (credentials (s3Client ∅)) = ""
  ∧ secretAccessKey (credentials (s3Client ∅)) = "".
Proof.
  destruct (absent_configuration ∅) as (Hid & Hsecret & _ & Hregion).
  split; [reflexivity |].
  split; [apply Hregion; reflexivity |].
  split; [apply Hid; reflexivity | apply Hsecret; reflexivity].
Defined.

(** C5 as stated fails for the region: with [AWS_REGION] absent the client
    is configured with [undefined], not with the empty string, and the
    public URL spells "undefined" where the region goes. *)
Lemma region_has_no_empty_default :
  (∅ : Env) !! "AWS_REGION" = None
  ∧ region (s3Client ∅) ≠ Some ""
  ∧ getPublicUrl ∅ "b" "k" = "https://b.s3.undefined.amazonaws.com/k"
  ∧ getPublicUrl ∅ "b" "k" ≠ "https://b.s3..amazonaws.com/k".
Proof. repeat split; discriminate. Qed.

(** ** [uploadFileToS3] *)

Section UploadFileToS3.
Context {P : Type} `{S3Sdk P}.
Variable env : Env.

(** One run of [uploadFileToS3], by the provider's answer to its one
    request. *)
Lemma uploadFileToS3_run (params : UploadParams.t) (w : World P) :
  uploadFileToS3 env params w =
  match s3_send_put (s3Client env) (uploadFileToS3_uploadParams params)
          (provider w) with
  | (inl e, p') =>
      (Throw e,
       mkWorld p' (calls w ++ [put_call env params])
         (console w ++ [(LError, [AStr "Error during file upload:"; AExn e])])
         (revalidated w))
  | (inr _, p') =>
      (Ok tt,
       mkWorld p' (calls w ++ [put_call env params])
         (console w ++
          [(LInfo, [AStr ("Upload successful: s3://" +:+ UploadParams.Bucket params
                          +:+ "/" +:+ UploadParams.Key params)])])
         (revalidated w))
  end.
Proof.
  unfold uploadFileToS3, send_put. async_unfold. simpl.
  destruct (s3_send_put _ _ _) as [[e|[]] p']; reflexivity.
Qed.

Lemma uploadFileToS3_calls (params : UploadParams.t) (w : World P) :
  calls (uploadFileToS3 env params w).2 = calls w ++ [put_call env params].
Proof.
  rewrite uploadFileToS3_run.
  destruct (s3_send_put _ _ _) as [[e|u] p']; reflexivity.
Qed.
End UploadFileToS3.

(** C4.  [uploadFileToS3] sends its request once.  When the provider
    answers that request with an error, the function throws that very
    error and has sent nothing else (no retry); when the provider accepts
    the request, the function returns normally. *)
Theorem uploadFileToS3_propagates_provider_error
    {P : Type} `{S3Sdk P} (env : Env) (params : UploadParams.t) (w : World P) :
  let input := uploadFileToS3_uploadParams params in
  let sent := calls w ++ [Send (s3Client env) (PutObjectCommand input)] in
  (∀ e p', s3_send_put (s3Client env) input (provider w) = (inl e, p') →
     ∃ w', uploadFileToS3 env params w = (Throw e, w')
           ∧ calls w' = sent ∧ provider w' = p')
  ∧ (∀ u p', s3_send_put (s3Client env) input (provider w) = (inr u, p') →
       ∃ w', uploadFileToS3 env params w = (Ok tt, w')
             ∧ calls w' = sent ∧ provider w' = p').
Proof.
  intros input sent. split.
  - intros e p' Hsend. rewrite uploadFileToS3_run. fold input. rewrite Hsend.
    eexists. split; [reflexivity | by split].
  - intros u p' Hsend. rewrite uploadFileToS3_run. fold input. rewrite Hsend.
    eexists. split; [reflexivity | by split].
Qed.

Lemma uploadFileToS3_propagates_provider_error_witness :
  (∃ w', uploadFileToS3 Sample.env (Sample.params None) (RefS3.world Sample.down)
         = (Throw Sample.access_denied, w')
         ∧ length (calls w') = 1%nat)
  ∧ (∃ w', uploadFileToS3 Sample.env (Sample.params None)
             (RefS3.world Sample.empty_store) = (Ok tt, w')
           ∧ length (calls w') = 1%nat).
Proof.
  split.
  - destruct (uploadFileToS3_propagates_provider_error Sample.env
                (Sample.params None) (RefS3.world Sample.down)) as [Herr _].
    destruct (Herr Sample.access_denied Sample.down eq_refl)
      as (w' & Hrun & Hcalls & _).
    exists w'. split; [exact Hrun | by rewrite Hcalls].
  - destruct (uploadFileToS3_propagates_provider_error Sample.env
                (Sample.params None) (RefS3.world Sample.empty_store)) as [_ Hok].
    destruct (Hok tt _ eq_refl) as (w' & Hrun & Hcalls & _).
    exists w'. split; [exact Hrun | by rewrite Hcalls].
Defined.

(** C8.  When [params.ACL] is absent or falsy (the empty string), the
    request [uploadFileToS3] sends has no [ACL] field: no "public-read" is
    put in its place.  The other fields are those of [params]. *)
Theorem uploadFileToS3_omits_absent_ACL
    {P : Type} `{S3Sdk P} (env : Env) (params : UploadParams.t) (w : World P) :
  UploadParams.ACL params = None ∨ UploadParams.ACL params = Some "" →
  ∃ input,
    calls (uploadFileToS3 env params w).2
    = calls w ++ [Send (s3Client env) (PutObjectCommand input)]
    ∧ PutObjectCommandInput.ACL input = None
    ∧ PutObjectCommandInput.Bucket input = UploadParams.Bucket params
    ∧ PutObjectCommandInput.Key input = UploadParams.Key params
    ∧ PutObjectCommandInput.Body input = Some (UploadParams.Body params)
    ∧ PutObjectCommandInput.ContentType input = UploadParams.ContentType params.
Proof.
  intros Hacl%truthy_false.
  exists (uploadFileToS3_uploadParams params).
  split; [apply uploadFileToS3_calls |].
  unfold uploadFileToS3_uploadParams. rewrite Hacl. by repeat split.
Qed.

Lemma uploadFileToS3_omits_absent_ACL_witness :
  ∃ input,
    calls (uploadFileToS3 Sample.env (Sample.params None)
             (RefS3.world Sample.empty_store)).2
    = [Send (s3Client Sample.env) (PutObjectCommand input)]
    ∧ PutObjectCommandInput.ACL input = None.
Proof.
  destruct (uploadFileToS3_omits_absent_ACL Sample.env (Sample.params None)
              (RefS3.world Sample.empty_store) (or_introl eq_refl))
    as (input & Hcalls & Hacl & _).
  exists input. split; [exact Hcalls | exact Hacl].
Defined.

(** A truthy [params.ACL] is passed on as it is. *)
Lemma uploadFileToS3_keeps_truthy_ACL (params : UploadParams.t) :
  truthy (UploadParams.ACL params) = true →
  PutObjectCommandInput.ACL (uploadFileToS3_uploadParams params)
  = UploadParams.ACL params.
Proof. intros Hacl. unfold uploadFileToS3_uploadParams. by rewrite Hacl. Qed.

(** ** Signed URLs *)

(** C9.  With the expiration argument omitted, [generateUploadSignedUrl]
    and [generateGetSignedUrl] behave as with 300: the one [getSignedUrl]
    call each makes carries [expiresIn = 300]. *)
Theorem signed_url_default_expiry
    {P : Type} `{S3Sdk P} (env : Env) (bucket key contentType : string)
    (w : World P) :
  let put :=
    PutObjectCommand
      {| PutObjectCommandInput.Bucket := bucket;
         PutObjectCommandInput.Key := key;
         PutObjectCommandInput.Body := None;
         PutObjectCommandInput.ContentType := Some contentType;
         PutObjectCommandInput.ACL := None |} in
  let get :=
    GetObjectCommand
      {| GetObjectCommandInput.Bucket := bucket;
         GetObjectCommandInput.Key := Some key |} in
  generateUploadSignedUrl env bucket key contentType None w
  = getSignedUrl env put 300 w
  ∧ calls (generateUploadSignedUrl env bucket key contentType None w).2
    = calls w ++ [GetSignedUrl (s3Client env) put 300]
  ∧ generateGetSignedUrl env bucket (Some key) None w
    = getSignedUrl env get 300 w
  ∧ calls (generateGetSignedUrl env bucket (Some key) None w).2
    = calls w ++ [GetSignedUrl (s3Client env) get 300].
Proof.
  intros put get.
  assert (Hcalls : ∀ command,
            calls (getSignedUrl env command 300 w).2
            = calls w ++ [GetSignedUrl (s3Client env) command 300]).
  { intros command. unfold getSignedUrl. async_unfold. simpl.
    destruct (s3_getSignedUrl _ _ _ _) as [[e|url] p']; reflexivity. }
  repeat split; try apply Hcalls.
Qed.

(** ** [listFilesInS3Path] *)

Section ListFilesInS3Path.
Context {P : Type} `{S3Sdk P}.
Variable env : Env.

(** One run of [listFilesInS3Path], by the provider's answer to its one
    request. *)
Lemma listFilesInS3Path_run (bucket prefix : string) (w : World P) :
  listFilesInS3Path env bucket prefix w =
  match s3_send_list (s3Client env) (list_command bucket prefix) (provider w) with
  | (inl e, p') =>
      (Throw e,
       mkWorld p' (calls w ++ [list_call env bucket prefix])
         (console w ++ [(LError, [AStr "Error listing S3 files:"; AExn e])])
         (revalidated w))
  | (inr response, p') =>
      (Ok (describe <$> contents response),
       mkWorld p' (calls w ++ [list_call env bucket prefix]) (console w)
         (revalidated w))
  end.
Proof.
  unfold listFilesInS3Path, send_list, list_command, contents. async_unfold. simpl.
  destruct (s3_send_list _ _ _) as [[e|response] p']; [reflexivity |].
  by destruct (ListObjectsV2CommandOutput.Contents response).
Qed.

Lemma describe_inj : Inj (=) (=) describe.
Proof. intros x y Hxy. by injection Hxy. Qed.

Lemma describe_key (item : S3Object.t) :
  Descriptor.key (describe item) = S3Object.Key item.
Proof. reflexivity. Qed.
End ListFilesInS3Path.




(** C3.  [listFilesInS3Path] sends exactly one list request, with no
    continuation token and no page size of its own, and returns the
    descriptors of the items of that one answer, whatever the answer says
    about truncation and the next token: nothing is logged and nothing is
    thrown, and a descriptor is in the result only for an item of that
    page. *)
Theorem listFilesInS3Path_single_page
    {P : Type} `{S3Sdk P} (env : Env) (bucket prefix : string) (w : World P)
    (response : ListObjectsV2CommandOutput.t) (p' : P) :
  s3_send_list (s3Client env) (list_command bucket prefix) (provider w)
  = (inr response, p') →
  ∃ files w' input,
    listFilesInS3Path env bucket prefix w = (Ok files, w')
    ∧ calls w' = calls w ++ [Send (s3Client env) (ListObjectsV2Command input)]
    ∧ ListObjectsV2CommandInput.ContinuationToken input = None
    ∧ ListObjectsV2CommandInput.MaxKeys input = None
    ∧ console w' = console w
    ∧ length files = length (contents response)
    ∧ ∀ item, describe item ∈ files ↔ item ∈ contents response.
Proof.
  intros Hsend.
  exists (describe <$> contents response). eexists. exists (list_command bucket prefix).
  split; [rewrite listFilesInS3Path_run, Hsend; reflexivity |].
  do 4 (split; [reflexivity |]).
  split; [apply length_fmap |].
  intros item. rewrite list_elem_of_fmap. split.
  - intros [item' [Heq Hin]]. by apply describe_inj in Heq as <-.
  - intros Hin. by exists item.
Qed.

(** ** The reference provider's listing *)

Lemma RefS3_contents (bucket prefix : string) (s : RefS3.t) :
  contents (RefS3.list_objects (list_command bucket prefix) s)
  = RefS3.to_item <$> take (RefS3.page_size s) (matching bucket prefix s).
Proof.
  unfold contents, RefS3.list_objects, matching. simpl.
  by destruct (take _ _).
Qed.

Lemma RefS3_truncated (bucket prefix : string) (s : RefS3.t) :
  (RefS3.page_size s < length (matching bucket prefix s))%nat →
  ListObjectsV2CommandOutput.IsTruncated
    (RefS3.list_objects (list_command bucket prefix) s) = Some true.
Proof.
  intros Hlt. unfold RefS3.list_objects. simpl. fold (matching bucket prefix s).
  do 2 f_equal. apply negb_true_iff, Nat.leb_gt, Hlt.
Qed.

(** The reference provider honours the prefix. *)
Lemma RefS3_honours_prefix (bucket prefix : string) (s : RefS3.t) :
  forallb (λ item, key_starts_with prefix (S3Object.Key item))
    (contents (RefS3.list_objects (list_command bucket prefix) s)) = true.
Proof.
  rewrite RefS3_contents. apply Is_true_true, forallb_True, Forall_fmap.
  apply Forall_forall. intros o [i [Hin%list_elem_of_lookup_2 _]]%elem_of_take.
  apply list_elem_of_filter in Hin as [Hmatch _].
  apply andb_prop in Hmatch as [_ Hprefix]. simpl. by rewrite Hprefix.
Qed.

(** On the reference provider, one page is all [listFilesInS3Path]
    returns: when more objects match than a page holds, the answer is
    marked truncated and the objects after the first page are not in the
    result, which is still a normal return with an unchanged console. *)
Lemma listFilesInS3Path_truncates (env : Env) (bucket prefix : string)
    (s : RefS3.t) (w : World RefS3.t) :
  provider w = s → RefS3.outage s = None →
  ∃ w', listFilesInS3Path env bucket prefix w
        = (Ok (describe ∘ RefS3.to_item
               <$> take (RefS3.page_size s) (matching bucket prefix s)), w')
        ∧ console w' = console w
        ∧ calls w' = calls w ++ [list_call env bucket prefix].
Proof.
  intros <- Hup. rewrite listFilesInS3Path_run. simpl. rewrite Hup.
  rewrite RefS3_contents, <- list_fmap_compose.
  eexists. split; [reflexivity | by split].
Qed.

Lemma listFilesInS3Path_single_page_witness :
  ListObjectsV2CommandOutput.IsTruncated
    (RefS3.list_objects (list_command "teqhire-store-dev" "test") Sample.store)
  = Some true
  ∧ ∃ files w',
      listFilesInS3Path Sample.env "teqhire-store-dev" "test"
        (RefS3.world Sample.store) = (Ok files, w')
      ∧ length (calls w') = 1%nat
      ∧ length files = 2%nat
      ∧ describe (RefS3.to_item (Sample.object "test/d.txt")) ∉ files.
Proof.
  split; [reflexivity |].
  destruct (@listFilesInS3Path_single_page RefS3.t RefS3.sdk Sample.env
              "teqhire-store-dev" "test" (RefS3.world Sample.store)
              (RefS3.list_objects (list_command "teqhire-store-dev" "test")
                 Sample.store)
              Sample.store eq_refl)
    as (files & w' & input & Hrun & Hcalls & _ & _ & _ & Hlen & Hin).
  exists files, w'. split; [exact Hrun |].
  split; [by rewrite Hcalls |]. split; [exact Hlen |].
  rewrite Hin. vm_compute.
  intros Hd. repeat (apply elem_of_cons in Hd as [Hd|Hd]; [discriminate |]).
  by apply elem_of_nil in Hd.
Defined.

(** C10.  When the provider's answer has no [Contents] field, as for a
    prefix under which there is no object, [listFilesInS3Path] returns the
    empty list: it returns normally, and the value is the empty array. *)
Theorem listFilesInS3Path_absent_contents
    {P : Type} `{S3Sdk P} (env : Env) (bucket prefix : string) (w : World P)
    (response : ListObjectsV2CommandOutput.t) (p' : P) :
  s3_send_list (s3Client env) (list_command bucket prefix) (provider w)
  = (inr response, p') →
  ListObjectsV2CommandOutput.Contents response = None →
  ∃ w', listFilesInS3Path env bucket prefix w = (Ok [], w')
        ∧ console w' = console w.
Proof.
  intros Hsend Hnone. rewrite listFilesInS3Path_run, Hsend.
  unfold contents. rewrite Hnone. eexists. by split.
Qed.

Lemma listFilesInS3Path_absent_contents_witness :
  ListObjectsV2CommandOutput.Contents
    (RefS3.list_objects (list_command "teqhire-store-dev" "uploads/")
       Sample.store) = None
  ∧ ∃ w', listFilesInS3Path Sample.env "teqhire-store-dev" "uploads/"
            (RefS3.world Sample.store) = (Ok [], w')
          ∧ console w' = [].
Proof.
  split; [reflexivity |].
  apply (@listFilesInS3Path_absent_contents RefS3.t RefS3.sdk Sample.env
           "teqhire-store-dev" "uploads/" (RefS3.world Sample.store)
           (RefS3.list_objects (list_command "teqhire-store-dev" "uploads/")
              Sample.store)
           Sample.store); reflexivity.
Defined.

(** An empty [Contents] array gives the empty list as well. *)
Lemma listFilesInS3Path_empty_contents
    {P : Type} `{S3Sdk P} (env : Env) (bucket prefix : string) (w : World P)
    (response : ListObjectsV2CommandOutput.t) (p' : P) :
  s3_send_list (s3Client env) (list_command bucket prefix) (provider w)
  = (inr response, p') →
  ListObjectsV2CommandOutput.Contents response = Some [] →
  (listFilesInS3Path env bucket prefix w).1 = Ok [].
Proof.
  intros Hsend Hnil. rewrite listFilesInS3Path_run, Hsend.
  unfold contents. by rewrite Hnil.
Qed.

(** The reference provider answers without [Contents] exactly when no
    object of the bucket is under the prefix (or its pages are empty). *)
Lemma RefS3_no_objects (bucket prefix : string) (s : RefS3.t) :
  matching bucket prefix s = [] →
  ListObjectsV2CommandOutput.Contents
    (RefS3.list_objects (list_command bucket prefix) s) = None.
Proof.
  intros Hnone. unfold RefS3.list_objects. simpl.
  fold (matching bucket prefix s). rewrite Hnone. by rewrite take_nil.
Qed.

(** On the reference provider, a prefix without objects lists as []. *)
Lemma listFilesInS3Path_no_objects (env : Env) (bucket prefix : string)
    (w : World RefS3.t) :
  RefS3.outage (provider w) = None →
  matching bucket prefix (provider w) = [] →
  (listFilesInS3Path env bucket prefix w).1 = Ok [].
Proof.
  intros Hup Hnone. rewrite listFilesInS3Path_run. simpl. rewrite Hup.
  unfold contents. by rewrite RefS3_no_objects.
Qed.

(** ** [uploadAction] *)

Section UploadActionFacts.
Context {P : Type} `{S3Sdk P}.
Variable env : Env.

(** Without a "file" entry the handler logs "File is required" and goes on
    to the next statement, [if (file.size === 0)], which reads a property
    of [null]: the handler ends there with a TypeError, before the
    emptiness check has a value to test and before any request. *)
Lemma uploadAction_no_file_entry (formData : FormData) (w : World P) :
  FormData_get "file" formData = None →
  uploadAction env formData w
  = (Throw (TypeError "Cannot read properties of null (reading 'size')"),
     mkWorld (provider w) (calls w)
       (console w ++ [(LError, [AStr "File is required"])]) (revalidated w)).
Proof.
  intros Hnone. unfold uploadAction. rewrite Hnone. reflexivity.
Qed.

(** An empty file that has a name: the handler logs "File is empty" and
    carries on; it logs the parameters and uploads the empty body. *)
Lemma uploadAction_empty_file (formData : FormData) (f : File.t) (w : World P) :
  FormData_get "file" formData = Some (EntryFile f) →
  File.content f = [] →
  File.name f ≠ "" →
  ∃ isPrivate,
    let params :=
      uploadAction_uploadParams env (Some (File.name f)) (Some (File.type f))
        [] isPrivate in
    UploadParams.Body params = Buffer []
    ∧ uploadAction env formData w
      = (uploadFileToS3 env params;; revalidatePath "/upload")
          (mkWorld (provider w) (calls w)
             (console w ++ [(LError, [AStr "File is empty"]);
                            (LLog, [AParams params])])
             (revalidated w)).
Proof.
  intros Hfile Hempty Hname. eexists. split; [reflexivity |].
  unfold uploadAction. rewrite Hfile. async_unfold. simpl.
  unfold File.size. rewrite Hempty. simpl.
  destruct (String.eqb_spec (File.name f) "") as [|_]; [done |]. simpl.
  rewrite <- app_assoc. reflexivity.
Qed.

(** A file without a name is refused with the handler's own error, after
    the emptiness check has only logged. *)
Lemma uploadAction_unnamed_empty_file (formData : FormData) (f : File.t)
    (w : World P) :
  FormData_get "file" formData = Some (EntryFile f) →
  File.content f = [] →
  File.name f = "" →
  uploadAction env formData w
  = (Throw (Error "File name is required"),
     mkWorld (provider w) (calls w)
       (console w ++ [(LError, [AStr "File is empty"])]) (revalidated w)).
Proof.
  intros Hfile Hempty Hname. unfold uploadAction. rewrite Hfile.
  async_unfold. simpl. unfold File.size. rewrite Hempty, Hname.
  reflexivity.
Qed.
End UploadActionFacts.

(** C6, at the input where the code departs from it.  A submission with
    no "file" entry: the handler logs "File is required" and then throws a
    TypeError at [file.size], so it does halt; nothing is uploaded and the
    path is not revalidated. *)
Theorem uploadAction_missing_file_throws
    {P : Type} `{S3Sdk P} (env : Env) (w : World P) :
  uploadAction env [] w
  = (Throw (TypeError "Cannot read properties of null (reading 'size')"),
     mkWorld (provider w) (calls w)
       (console w ++ [(LError, [AStr "File is required"])]) (revalidated w)).
Proof. by apply uploadAction_no_file_entry. Qed.

(** ** [UploadPage]: the fan-out of URL lookups *)

Section UploadPageFacts.
Context {P : Type} `{S3Sdk P}.
Variable env : Env.
Variable lookup : string → option string.
Variable unhide : option string.

(** Run without interleaving, the two halves of the callback are the
    callback: [callback_start], then the answer to the pending request
    (which [settle] turns into the promise's state), is
    [UploadPage_callback] split at its [await] and nowhere else. *)
Lemma callback_split (file : Descriptor.t) (w : World P) :
  UploadPage_callback env lookup unhide file w
  = match callback_start env lookup unhide file w with
    | (Ok (Pending f mimeType command expiresIn), w1) =>
        let '(answer, p') :=
          s3_getSignedUrl (s3Client env) command expiresIn (provider w1) in
        (match answer with
         | inr url => Ok (fileUrl f mimeType url)
         | inl e => Throw e
         end,
         mkWorld p' (calls w1) (console w1) (revalidated w1))
    | (Ok (Fulfilled value), w1) => (Ok value, w1)
    | (Ok (Rejected e), w1) => (Throw e, w1)
    | (Throw e, w1) => (Throw e, w1)
    end.
Proof.
  unfold UploadPage_callback, callback_start, generateGetSignedUrl, getSignedUrl.
  async_unfold. destruct (is_on unhide); simpl; [| reflexivity].
  destruct (s3_getSignedUrl _ _ _ _) as [[e|url] p']; reflexivity.
Qed.

Lemma callback_start_run (file : Descriptor.t) (w : World P) :
  ∃ p w', callback_start env lookup unhide file w = (Ok p, w')
          ∧ promise_for env unhide file p
          ∧ is_rejected p = false.
Proof.
  unfold callback_start. async_unfold. simpl.
  destruct (is_on unhide) eqn:Hon; simpl; do 2 eexists.
  - split; [reflexivity |]. by repeat split.
  - split; [reflexivity |]. split; [| reflexivity].
    split; [reflexivity |]. unfold generated_from. by rewrite Hon.
Qed.

(** [files.map(callback)] returns one promise per file, none rejected yet,
    each for the file at its index. *)
Lemma map_start_run (files : list Descriptor.t) (w : World P) :
  ∃ pool w', map_start env lookup unhide files w = (Ok pool, w')
             ∧ Forall2 (promise_for env unhide) files pool
             ∧ Forall (λ p, is_rejected p = false) pool.
Proof.
  revert w. induction files as [|file files IH]; intros w.
  - exists [], w. by repeat split.
  - destruct (callback_start_run file w) as (p & w1 & Hstart & Hfor & Hrej).
    destruct (IH w1) as (pool & w2 & Hrest & Hall & Hrejs).
    exists (p :: pool), w2. split.
    + simpl. rewrite (bind_ok _ _ _ _ _ Hstart), (bind_ok _ _ _ _ _ Hrest).
      reflexivity.
    + split; by constructor.
Qed.

(** *** One completion *)

Lemma complete_pending (pool : list Promise) (rejection : option Exn)
    (w : World P) (j : nat) file mimeType command expiresIn :
  pool !! j = Some (Pending file mimeType command expiresIn) →
  complete env (pool, rejection, w) j
  = let '(answer, p') :=
      s3_getSignedUrl (s3Client env) command expiresIn (provider w) in
    (<[j := settle file mimeType answer]> pool,
     match rejection, answer with
     | None, inl e => Some e
     | _, _ => rejection
     end,
     mkWorld p' (calls w) (console w) (revalidated w)).
Proof. intros Hj. unfold complete. by rewrite Hj. Qed.

Lemma complete_other (pool : list Promise) (rejection : option Exn)
    (w : World P) (j : nat) :
  (∀ p, pool !! j = Some p → is_pending p = false) →
  complete env (pool, rejection, w) j = (pool, rejection, w).
Proof.
  intros Hj. unfold complete. destruct (pool !! j) as [[]|] eqn:Hp; try done.
  by specialize (Hj _ eq_refl).
Qed.

(** A completion keeps every promise with its file. *)
Lemma complete_promise_for (files : list Descriptor.t) (st : Joining) (j : nat) :
  Forall2 (promise_for env unhide) files st.1.1 →
  Forall2 (promise_for env unhide) files (complete env st j).1.1.
Proof.
  destruct st as [[pool rejection] w]. intros Hall. simpl in Hall.
  destruct (pool !! j) as [p|] eqn:Hp.
  - destruct (is_pending p) eqn:Hpending.
    + destruct p as [f mimeType command expiresIn| |]; try done.
      rewrite (complete_pending _ _ _ _ _ _ _ _ Hp).
      destruct (Forall2_lookup_r _ _ _ _ _ Hall Hp) as (file & Hfile & Hfor).
      destruct Hfor as (-> & -> & -> & Hon).
      destruct (s3_getSignedUrl _ _ _ _) as [answer p'] eqn:Hsign. simpl.
      rewrite <- (list_insert_id files j file Hfile).
      apply Forall2_insert; [done |].
      destruct answer as [e|url]; simpl; [done |].
      split; [reflexivity |]. unfold generated_from. rewrite Hon. eauto.
    + rewrite complete_other; [done |]. intros p' Hp'. congruence.
  - rewrite complete_other; [done |]. intros p' Hp'. congruence.
Qed.

(** While no rejection is recorded, no promise of the pool is rejected. *)
Lemma complete_rejection (st : Joining) (j : nat) :
  (st.1.2 = None → Forall (λ p, is_rejected p = false) st.1.1) →
  (complete env st j).1.2 = None →
  Forall (λ p, is_rejected p = false) (complete env st j).1.1.
Proof.
  destruct st as [[pool rejection] w]. intros Hinv. simpl in Hinv.
  destruct (pool !! j) as [p|] eqn:Hp.
  - destruct (is_pending p) eqn:Hpending.
    + destruct p as [f mimeType command expiresIn| |]; try done.
      rewrite (complete_pending _ _ _ _ _ _ _ _ Hp).
      destruct (s3_getSignedUrl _ _ _ _) as [[e|url] p']; simpl.
      * by destruct rejection.
      * intros Hnone. apply Forall_insert; [| reflexivity].
        apply Hinv. by destruct rejection.
    + rewrite complete_other; [done |]. intros p' Hp'. congruence.
  - rewrite complete_other; [done |]. intros p' Hp'. congruence.
Qed.

(** A promise that is settled stays as it is. *)
Lemma complete_settled (st : Joining) (i j : nat) (p : Promise) :
  st.1.1 !! i = Some p → is_pending p = false →
  (complete env st j).1.1 !! i = Some p.
Proof.
  destruct st as [[pool rejection] w]. intros Hi Hsettled. simpl in Hi.
  destruct (pool !! j) as [[f mimeType command expiresIn|v|e]|] eqn:Hp;
    try (rewrite complete_other; [exact Hi |]; intros p' ?; by simplify_eq).
  rewrite (complete_pending _ _ _ _ _ _ _ _ Hp).
  destruct (s3_getSignedUrl _ _ _ _) as [answer p']. simpl.
  rewrite list_lookup_insert_ne; [done |]. intros ->.
  rewrite Hp in Hi. injection Hi as <-. done.
Qed.

Lemma complete_length (st : Joining) (j : nat) :
  length (complete env st j).1.1 = length st.1.1.
Proof.
  destruct st as [[pool rejection] w].
  destruct (pool !! j) as [[f mimeType command expiresIn|v|e]|] eqn:Hp;
    try (rewrite complete_other; [done |]; intros p' ?; by simplify_eq).
  rewrite (complete_pending _ _ _ _ _ _ _ _ Hp).
  destruct (s3_getSignedUrl _ _ _ _) as [answer p']. simpl.
  apply length_insert.
Qed.

(** After its completion, promise [j] is settled. *)
Lemma complete_settles (st : Joining) (j : nat) (p : Promise) :
  (complete env st j).1.1 !! j = Some p → is_pending p = false.
Proof.
  destruct st as [[pool rejection] w].
  destruct (pool !! j) as [q|] eqn:Hq.
  - destruct (is_pending q) eqn:Hpending.
    + destruct q as [f mimeType command expiresIn| |]; try done.
      rewrite (complete_pending _ _ _ _ _ _ _ _ Hq).
      destruct (s3_getSignedUrl _ _ _ _) as [answer p']. simpl.
      rewrite list_lookup_insert_eq by (by eapply lookup_lt_Some).
      intros [= <-]. by destruct answer.
    + rewrite complete_other by (intros q' Hq'; congruence).
      simpl. congruence.
  - rewrite complete_other by (intros q' Hq'; congruence).
    simpl. congruence.
Qed.
End UploadPageFacts.

(** *** A whole schedule *)

Section Schedules.
Context {P : Type} `{S3Sdk P}.
Variable env : Env.
Variable lookup : string → option string.
Variable unhide : option string.

Lemma foldl_complete_promise_for (files : list Descriptor.t) (l : list nat)
    (st : Joining) :
  Forall2 (promise_for env unhide) files st.1.1 →
  Forall2 (promise_for env unhide) files (foldl (complete env) st l).1.1.
Proof.
  revert st. induction l as [|j l IH]; intros st Hall; [done |].
  simpl. by apply IH, complete_promise_for.
Qed.

Lemma foldl_complete_rejection (l : list nat) (st : Joining) :
  (st.1.2 = None → Forall (λ p, is_rejected p = false) st.1.1) →
  (foldl (complete env) st l).1.2 = None →
  Forall (λ p, is_rejected p = false) (foldl (complete env) st l).1.1.
Proof.
  revert st. induction l as [|j l IH]; intros st Hinv; [done |].
  simpl. by apply IH, complete_rejection.
Qed.

Lemma foldl_complete_settled (l : list nat) (st : Joining) (i : nat)
    (p : Promise) :
  st.1.1 !! i = Some p → is_pending p = false →
  (foldl (complete env) st l).1.1 !! i = Some p.
Proof.
  revert st. induction l as [|j l IH]; intros st Hi Hsettled; [done |].
  simpl. apply IH; [| done]. by apply complete_settled.
Qed.

Lemma foldl_complete_length (l : list nat) (st : Joining) :
  length (foldl (complete env) st l).1.1 = length st.1.1.
Proof.
  revert st. induction l as [|j l IH]; intros st; [done |].
  simpl. by rewrite IH, complete_length.
Qed.

(** Every promise whose index the schedule names is settled at the end. *)
Lemma foldl_complete_settles (l : list nat) (st : Joining) (j : nat)
    (p : Promise) :
  j ∈ l →
  (foldl (complete env) st l).1.1 !! j = Some p →
  is_pending p = false.
Proof.
  revert st. induction l as [|a l IH]; intros st Hin Hp.
  - by apply elem_of_nil in Hin.
  - apply elem_of_cons in Hin as [->|Hin]; [| by eapply IH].
    simpl in Hp.
    assert (Hlt : (a < length (complete env st a).1.1)%nat).
    { rewrite <- (foldl_complete_length l). by eapply lookup_lt_Some. }
    apply lookup_lt_is_Some in Hlt as [q Hq].
    pose proof (complete_settles env st a q Hq) as Hsettled.
    rewrite (foldl_complete_settled l _ a q Hq Hsettled) in Hp.
    by injection Hp as <-.
Qed.

(** A pool in which every promise is fulfilled joins to its values, index
    by index. *)
Lemma omap_fulfilled (files : list Descriptor.t) (pool : list Promise) :
  Forall2 (promise_for env unhide) files pool →
  Forall (λ p, is_pending p = false) pool →
  Forall (λ p, is_rejected p = false) pool →
  Forall2 (fileUrl_for env unhide) files (omap fulfilled_value pool).
Proof.
  induction 1 as [|file p files pool Hfor Hall IH]; [constructor |].
  intros [Hpending Hpendings]%Forall_cons [Hrejected Hrejecteds]%Forall_cons.
  destruct p as [| value |]; try done.
  simpl. constructor; [exact Hfor | by apply IH].
Qed.

(** [Promise.all] fulfils with one value per file, each for the file at
    its index, whatever the schedule. *)
Lemma promise_all_ok (schedule : list nat) (files : list Descriptor.t)
    (pool : list Promise) (w w' : World P) (fileUrls : list FileUrl.t) :
  Forall2 (promise_for env unhide) files pool →
  Forall (λ p, is_rejected p = false) pool →
  promise_all env schedule pool w = (Ok fileUrls, w') →
  Forall2 (fileUrl_for env unhide) files fileUrls.
Proof.
  intros Hall Hrejected. unfold promise_all, run_schedule.
  set (l := schedule ++ seq 0 (length pool)).
  pose proof (foldl_complete_promise_for files l (pool, None, w) Hall) as Hfor.
  pose proof (foldl_complete_rejection l (pool, None, w) (λ _, Hrejected))
    as Hrej.
  pose proof (foldl_complete_length l (pool, None, w)) as Hlen.
  pose proof (foldl_complete_settles l (pool, None, w)) as Hsettles.
  destruct (foldl (complete env) (pool, None, w) l) as [[pool' rejection] w1].
  simpl in *. destruct rejection as [e|]; [discriminate |].
  intros [= <- <-]. apply omap_fulfilled; [exact Hfor | | by apply Hrej].
  apply Forall_lookup. intros j p Hp. apply (Hsettles j p); [| exact Hp].
  apply elem_of_app. right. apply elem_of_seq.
  apply lookup_lt_Some in Hp. lia.
Qed.

(** When no [getSignedUrl] request fails, no rejection is ever recorded. *)
Lemma foldl_complete_no_rejection (l : list nat) (st : Joining) :
  (∀ command expiresIn p,
     ∃ url p', s3_getSignedUrl (s3Client env) command expiresIn p = (inr url, p')) →
  st.1.2 = None →
  (foldl (complete env) st l).1.2 = None.
Proof.
  intros Hsigns. revert st. induction l as [|j l IH]; intros st Hnone; [done |].
  simpl. apply IH. destruct st as [[pool rejection] w]. simpl in Hnone. subst.
  unfold complete.
  destruct (pool !! j) as [[f mimeType command expiresIn|v|e]|]; try done.
  destruct (Hsigns command expiresIn (provider w)) as (url & p' & ->). done.
Qed.
End Schedules.

(** C7.  The URL lookups for the listed files complete in any order, and
    the joined array still pairs each file with its own URL: for every
    schedule of completions, when the page obtains [fileUrls], it has one
    entry per listed file, and the entry at index [i] carries the key of
    the [i]-th listed file and a URL generated from that key (the answer
    to the [getSignedUrl] request for that key, or its public URL). *)
Theorem UploadPage_urls_match_keys
    {P : Type} `{S3Sdk P} (env : Env) (lookup : string → option string)
    (unhide : option string) (schedule : list nat) (w w1 w' : World P)
    (files : list Descriptor.t) (fileUrls : list FileUrl.t) :
  listFilesInS3Path env "teqhire-store-dev" "test" w = (Ok files, w1) →
  UploadPage env lookup unhide schedule w = (Ok fileUrls, w') →
  length fileUrls = length files
  ∧ ∀ i file, files !! i = Some file →
      ∃ r, fileUrls !! i = Some r ∧ fileUrl_for env unhide file r.
Proof.
  intros Hlist Hpage. unfold UploadPage in Hpage.
  rewrite (bind_ok _ _ _ _ _ Hlist) in Hpage.
  apply bind_ok_inv in Hpage as ([] & w2 & _ & Hpage).
  destruct (map_start_run env lookup unhide files w2)
    as (pool & w3 & Hstart & Hfor & Hrejected).
  rewrite (bind_ok _ _ _ _ _ Hstart) in Hpage.
  apply bind_ok_inv in Hpage as (urls & w4 & Hjoin & Hpage).
  apply bind_ok_inv in Hpage as ([] & w5 & _ & Hret).
  injection Hret as -> _.
  pose proof (promise_all_ok env unhide schedule files pool w3 w4 fileUrls
                Hfor Hrejected Hjoin) as Hall.
  split; [symmetry; by eapply Forall2_length |].
  intros i file Hfile.
  destruct (Forall2_lookup_l _ _ _ _ _ Hall Hfile) as (r & Hr & Hok).
  by exists r.
Qed.

Lemma UploadPage_urls_match_keys_witness :
  ∃ fileUrls w',
    UploadPage Sample.env Sample.mime (Some "on") [1; 0]%nat
      (RefS3.world Sample.store) = (Ok fileUrls, w')
    ∧ FileUrl.url <$> fileUrls
      = ["https://teqhire-store-dev.s3.amazonaws.com/test/a.png?X-Amz-Expires=10&X-Amz-Signature=x";
         "https://teqhire-store-dev.s3.amazonaws.com/test/c.pdf?X-Amz-Expires=10&X-Amz-Signature="]
    ∧ ∃ r, fileUrls !! 1%nat = Some r
           ∧ fileUrl_for Sample.env (Some "on")
               (describe (RefS3.to_item (Sample.object "test/c.pdf"))) r.
Proof.
  eexists _, _. split; [vm_compute; reflexivity |].
  split; [reflexivity |].
  refine (proj2 (@UploadPage_urls_match_keys RefS3.t RefS3.sdk Sample.env
                   Sample.mime (Some "on") [1; 0]%nat (RefS3.world Sample.store)
                   _ _ _ _ _ _) 1%nat _ _); vm_compute; reflexivity.
Defined.

(** The page does obtain [fileUrls] when the listing succeeds and no
    signing request fails: for every schedule it returns normally. *)
Lemma UploadPage_returns
    {P : Type} `{S3Sdk P} (env : Env) (lookup : string → option string)
    (unhide : option string) (schedule : list nat) (w w1 : World P)
    (files : list Descriptor.t) :
  (∀ command expiresIn p,
     ∃ url p', s3_getSignedUrl (s3Client env) command expiresIn p = (inr url, p')) →
  listFilesInS3Path env "teqhire-store-dev" "test" w = (Ok files, w1) →
  ∃ fileUrls w', UploadPage env lookup unhide schedule w = (Ok fileUrls, w').
Proof.
  intros Hsigns Hlist. unfold UploadPage.
  rewrite (bind_ok _ _ _ _ _ Hlist).
  erewrite bind_ok by reflexivity.
  set (w2 := mkWorld _ _ _ _).
  destruct (map_start_run env lookup unhide files w2)
    as (pool & w3 & Hstart & _ & _).
  rewrite (bind_ok _ _ _ _ _ Hstart).
  rewrite bind_run. unfold promise_all, run_schedule.
  pose proof (foldl_complete_no_rejection env
                (schedule ++ seq 0 (length pool)) (pool, None, w3)
                Hsigns eq_refl) as Hnone.
  destruct (foldl _ _ _) as [[pool' rejection] w4]. simpl in Hnone. subst.
  rewrite bind_run. simpl. eauto.
Qed.

(** ** Schedules and interleavings, requests made by the page *)

Section Interleavings.
Context {P : Type} `{S3Sdk P}.
Variable env : Env.
Variable lookup : string → option string.
Variable unhide : option string.

(** A schedule that names every promise is run as it is: the completions
    appended after it find nothing pending. *)
Lemma run_schedule_complete (schedule : list nat) (pool : list Promise)
    (rejection : option Exn) (w : World P) :
  (∀ j, (j < length pool)%nat → j ∈ schedule) →
  run_schedule env schedule (pool, rejection, w)
  = foldl (complete env) (pool, rejection, w) schedule.
Proof.
  intros Hall. unfold run_schedule. rewrite foldl_app.
  pose proof (foldl_complete_settles env schedule (pool, rejection, w)) as Hsettles.
  pose proof (foldl_complete_length env schedule (pool, rejection, w)) as Hlen.
  destruct (foldl (complete env) (pool, rejection, w) schedule)
    as [[pool' rejection'] w'].
  simpl in Hsettles, Hlen.
  generalize (seq 0 (length pool)). intros l.
  induction l as [|j l IH]; [done |].
  cbn [foldl]. rewrite complete_other; [exact IH |].
  intros p Hp. apply (Hsettles j p); [| exact Hp].
  apply Hall. rewrite <- Hlen. by eapply lookup_lt_Some.
Qed.

Lemma callback_start_calls (file : Descriptor.t) (w : World P) :
  calls (callback_start env lookup unhide file w).2
  = calls w ++ (if is_on unhide then [sign_call env file] else []).
Proof.
  unfold callback_start. async_unfold. simpl.
  destruct (is_on unhide); simpl; [reflexivity | by rewrite app_nil_r].
Qed.

(** The requests are issued in listing order, one per file in signed mode
    and none in public mode. *)
Lemma map_start_calls (files : list Descriptor.t) (w : World P) :
  calls (map_start env lookup unhide files w).2
  = calls w ++ (if is_on unhide then sign_call env <$> files else []).
Proof.
  revert w. induction files as [|file files IH]; intros w.
  - simpl. destruct (is_on unhide); by rewrite app_nil_r.
  - destruct (callback_start_run env lookup unhide file w)
      as (p & w1 & Hstart & _ & _).
    destruct (map_start_run env lookup unhide files w1)
      as (pool & w2 & Hrest & _ & _).
    pose proof (callback_start_calls file w) as Hcall.
    pose proof (IH w1) as Hcalls.
    rewrite Hstart in Hcall. rewrite Hrest in Hcalls. simpl in Hcall, Hcalls.
    simpl. rewrite (bind_ok _ _ _ _ _ Hstart), (bind_ok _ _ _ _ _ Hrest).
    simpl. rewrite Hcalls, Hcall.
    destruct (is_on unhide); simpl; by rewrite <- ?app_assoc, ?app_nil_r.
Qed.

Lemma complete_calls (st : Joining) (j : nat) :
  calls (complete env st j).2 = calls st.2.
Proof.
  destruct st as [[pool rejection] w]. unfold complete.
  destruct (pool !! j) as [[f mimeType command expiresIn|v|e]|]; try done.
  by destruct (s3_getSignedUrl _ _ _ _).
Qed.

Lemma foldl_complete_calls (l : list nat) (st : Joining) :
  calls (foldl (complete env) st l).2 = calls st.2.
Proof.
  revert st. induction l as [|j l IH]; intros st; [done |].
  simpl. by rewrite IH, complete_calls.
Qed.

(** X11.  All the page asks of the SDK: the one listing and, in signed mode, one
    [getSignedUrl] per listed file for that file's key; in public mode the
    URLs cost no request at all. *)
Lemma UploadPage_calls (schedule : list nat) (w w1 w' : World P)
    (files : list Descriptor.t) (fileUrls : list FileUrl.t) :
  listFilesInS3Path env "teqhire-store-dev" "test" w = (Ok files, w1) →
  UploadPage env lookup unhide schedule w = (Ok fileUrls, w') →
  calls w'
  = calls w ++ [list_call env "teqhire-store-dev" "test"]
    ++ (if is_on unhide then sign_call env <$> files else []).
Proof.
  intros Hlist Hpage.
  assert (Hcalls1 : calls w1 = calls w ++ [list_call env "teqhire-store-dev" "test"]).
  { rewrite listFilesInS3Path_run in Hlist.
    destruct (s3_send_list _ _ _) as [[e|response] p']; [discriminate |].
    by injection Hlist as _ <-. }
  unfold UploadPage in Hpage. rewrite (bind_ok _ _ _ _ _ Hlist) in Hpage.
  erewrite bind_ok in Hpage by reflexivity.
  set (w2 := mkWorld _ _ _ _) in Hpage.
  pose proof (map_start_calls files w2) as Hcalls2.
  destruct (map_start_run env lookup unhide files w2)
    as (pool & w3 & Hstart & _ & _).
  rewrite Hstart in Hcalls2. simpl in Hcalls2.
  rewrite (bind_ok _ _ _ _ _ Hstart) in Hpage.
  apply bind_ok_inv in Hpage as (urls & w4 & Hjoin & Hpage).
  apply bind_ok_inv in Hpage as ([] & w5 & Hlog & Hret).
  injection Hret as _ <-. injection Hlog as <-. simpl.
  unfold promise_all, run_schedule in Hjoin.
  pose proof (foldl_complete_calls (schedule ++ seq 0 (length pool))
                (pool, None, w3)) as Hcalls3.
  destruct (foldl _ _ _) as [[pool' rejection] w6].
  destruct rejection; [discriminate |]. injection Hjoin as _ <-.
  simpl in Hcalls3. rewrite Hcalls3, Hcalls2, Hcalls1, <- app_assoc. reflexivity.
Qed.
End Interleavings.

(** On the reference provider the listing needs no assumption: whatever
    the store holds, every descriptor returned is that of a stored object
    of the bucket whose key starts with the prefix. *)
Lemma listFilesInS3Path_reference_only_prefix (env : Env)
    (bucket prefix : string) (w w' : World RefS3.t) (files : list Descriptor.t) :
  listFilesInS3Path env bucket prefix w = (Ok files, w') →
  ∀ d, d ∈ files →
    ∃ o, o ∈ RefS3.objects (provider w)
         ∧ RefS3.bucket o = bucket
         ∧ String.prefix prefix (RefS3.key o) = true
         ∧ d = describe (RefS3.to_item o).
Proof.
  rewrite listFilesInS3Path_run. simpl.
  destruct (RefS3.outage (provider w)); [discriminate |].
  intros [= <- _] d. rewrite RefS3_contents, <- list_fmap_compose.
  intros (o & -> & [i [Ho%list_elem_of_lookup_2 _]]%elem_of_take)%list_elem_of_fmap.
  apply list_elem_of_filter in Ho as [Hmatch Ho].
  apply andb_prop in Hmatch as [Hbucket%String.eqb_eq Hprefix].
  by exists o.
Qed.

(** * Further properties of the wrapper *)

(** X1.  Under one environment and one bucket name, [getPublicUrl] gives
    different URLs to different keys. *)
Theorem getPublicUrl_distinct_keys (env : Env) (bucketName key1 key2 : string) :
  key1 ≠ key2 →
  getPublicUrl env bucketName key1 ≠ getPublicUrl env bucketName key2.
Proof.
  intros Hne Heq. apply Hne. unfold getPublicUrl in Heq.
  by repeat apply (inj (String.append _)) in Heq.
Qed.

Lemma getPublicUrl_distinct_keys_witness :
  getPublicUrl Sample.env "teqhire-store-dev" "test/a.png"
  ≠ getPublicUrl Sample.env "teqhire-store-dev" "test/a.pdf".
Proof.
  apply (getPublicUrl_distinct_keys Sample.env "teqhire-store-dev"
           "test/a.png" "test/a.pdf").
  discriminate.
Defined.

(** X2.  When the provider answers the list request with an error,
    [listFilesInS3Path] logs "Error listing S3 files:" with that error,
    once, and throws the same error; it has sent the one request and does
    not try again. *)
Theorem listFilesInS3Path_propagates_provider_error
    {P : Type} `{S3Sdk P} (env : Env) (bucket prefix : string) (w : World P)
    (e : Exn) (p' : P) :
  s3_send_list (s3Client env) (list_command bucket prefix) (provider w)
  = (inl e, p') →
  listFilesInS3Path env bucket prefix w
  = (Throw e,
     mkWorld p' (calls w ++ [list_call env bucket prefix])
       (console w ++ [(LError, [AStr "Error listing S3 files:"; AExn e])])
       (revalidated w)).
Proof. intros Hsend. by rewrite listFilesInS3Path_run, Hsend. Qed.

Lemma listFilesInS3Path_propagates_provider_error_witness :
  (listFilesInS3Path Sample.env "teqhire-store-dev" "test"
     (RefS3.world Sample.down)).1 = Throw Sample.access_denied.
Proof.
  rewrite (@listFilesInS3Path_propagates_provider_error RefS3.t RefS3.sdk
             Sample.env "teqhire-store-dev" "test" (RefS3.world Sample.down)
             Sample.access_denied Sample.down eq_refl).
  reflexivity.
Defined.

(** X3.  Every call of [uploadFileToS3] writes exactly one console entry:
    on success an info line that names s3://{Bucket}/{Key}, on failure an
    error line that carries the error it throws.  It never revalidates a
    path. *)
Theorem uploadFileToS3_logs_once
    {P : Type} `{S3Sdk P} (env : Env) (params : UploadParams.t) (w : World P) :
  ∃ entry,
    console (uploadFileToS3 env params w).2 = console w ++ [entry]
    ∧ revalidated (uploadFileToS3 env params w).2 = revalidated w
    ∧ match (uploadFileToS3 env params w).1 with
      | Ok _ =>
          entry
          = (LInfo, [AStr ("Upload successful: s3://"
                           +:+ UploadParams.Bucket params +:+ "/"
                           +:+ UploadParams.Key params)])
      | Throw e => entry = (LError, [AStr "Error during file upload:"; AExn e])
      end.
Proof.
  rewrite uploadFileToS3_run.
  destruct (s3_send_put _ _ _) as [[e|u] p']; eexists; by repeat split.
Qed.

(** X4.  The two signed-URL functions hand back what the SDK gives them:
    its URL, or its error thrown unchanged.  They make one [getSignedUrl]
    call with the expiry they were given (300 when omitted) and, unlike
    the upload and the listing, log nothing. *)
Theorem signed_url_passes_answer
    {P : Type} `{S3Sdk P} (env : Env) (bucket key contentType : string)
    (expiresIn : option Z) (w : World P) :
  let t := default 300 expiresIn in
  let put :=
    PutObjectCommand
      {| PutObjectCommandInput.Bucket := bucket;
         PutObjectCommandInput.Key := key;
         PutObjectCommandInput.Body := None;
         PutObjectCommandInput.ContentType := Some contentType;
         PutObjectCommandInput.ACL := None |} in
  let get :=
    GetObjectCommand
      {| GetObjectCommandInput.Bucket := bucket;
         GetObjectCommandInput.Key := Some key |} in
  let result command (answer : (Exn + string) * P) :=
    (match answer.1 with inl e => Throw e | inr url => Ok url end,
     mkWorld answer.2 (calls w ++ [GetSignedUrl (s3Client env) command t])
       (console w) (revalidated w)) in
  generateUploadSignedUrl env bucket key contentType expiresIn w
  = result put (s3_getSignedUrl (s3Client env) put t (provider w))
  ∧ generateGetSignedUrl env bucket (Some key) expiresIn w
    = result get (s3_getSignedUrl (s3Client env) get t (provider w)).
Proof.
  intros t put get result. unfold result.
  unfold generateUploadSignedUrl, generateGetSignedUrl, getSignedUrl.
  async_unfold. simpl. fold t put get.
  split; destruct (s3_getSignedUrl _ _ _ _) as [[e|url] p']; reflexivity.
Qed.

(** * Further properties of [uploadAction] *)

Section UploadActionRuns.
Context {P : Type} `{S3Sdk P}.
Variable env : Env.

(** What [uploadFileToS3] makes of the parameters [uploadAction] builds:
    the ACL is always "private" or "public-read", so it is always kept. *)
Lemma uploadAction_request (formData : FormData) (f : File.t) :
  uploadFileToS3_uploadParams
    (uploadAction_uploadParams env (Some (File.name f)) (Some (File.type f))
       (File.content f) (isPrivate formData))
  = upload_request env formData f.
Proof.
  unfold uploadFileToS3_uploadParams, uploadAction_uploadParams, upload_request.
  simpl. by destruct (isPrivate formData).
Qed.

(** One run of [uploadAction] on a file that has a name, by the provider's
    answer to the upload. *)
Lemma uploadAction_named_run (formData : FormData) (f : File.t) (w : World P) :
  FormData_get "file" formData = Some (EntryFile f) →
  File.name f ≠ "" →
  let params :=
    uploadAction_uploadParams env (Some (File.name f)) (Some (File.type f))
      (File.content f) (isPrivate formData) in
  let before :=
    (if is_zero (Some (File.size f))
     then [(LError, [AStr "File is empty"])] else [])
    ++ [(LLog, [AParams params])] in
  let sent :=
    calls w ++ [Send (s3Client env)
                  (PutObjectCommand (upload_request env formData f))] in
  uploadAction env formData w
  = match s3_send_put (s3Client env) (upload_request env formData f)
            (provider w) with
    | (inl e, p') =>
        (Throw e,
         mkWorld p' sent
           (console w ++ before
            ++ [(LError, [AStr "Error during file upload:"; AExn e])])
           (revalidated w))
    | (inr _, p') =>
        (Ok tt,
         mkWorld p' sent
           (console w ++ before
            ++ [(LInfo, [AStr ("Upload successful: s3://"
                               +:+ UploadParams.Bucket params +:+ "/"
                               +:+ UploadParams.Key params)])])
           (revalidated w ++ ["/upload"]))
    end.
Proof.
  intros Hfile Hname params before sent.
  unfold uploadAction. rewrite Hfile. async_unfold. simpl.
  destruct (String.eqb_spec (File.name f) "") as [|_]; [done |]. simpl.
  fold (isPrivate formData). fold params.
  unfold before, sent.
  change (is_zero (Some (File.size f))) with (File.size f =? 0).
  destruct (File.size f =? 0); simpl;
    rewrite uploadFileToS3_run; unfold put_call; simpl;
    unfold params; rewrite uploadAction_request;
    destruct (s3_send_put _ _ _) as [[e|u] p']; simpl;
    by rewrite <- ?app_assoc, ?app_nil_r.
Qed.

(** One run of [uploadAction] on an entry whose [name] is falsy: a file
    with the empty name, or a text value. *)
Lemma uploadAction_unnamed_run (formData : FormData)
    (entry : FormDataEntryValue) (w : World P) :
  FormData_get "file" formData = Some entry →
  truthy (entry_name entry) = false →
  ∃ logged,
    uploadAction env formData w
    = (Throw (Error "File name is required"),
       mkWorld (provider w) (calls w) (console w ++ logged) (revalidated w)).
Proof.
  intros Hfile Hname. unfold uploadAction. rewrite Hfile. destruct w.
  destruct entry as [f|s]; simpl in Hname; async_unfold; simpl.
  - rewrite Hname. simpl.
    destruct (File.size f =? 0); simpl;
      [by eexists | exists []; by rewrite app_nil_r].
  - destruct (String.eqb s ""); simpl;
      [by eexists | exists []; by rewrite app_nil_r].
Qed.
End UploadActionRuns.

Lemma strict_eq_true (v : option FormDataEntryValue) (s : string) :
  strict_eq v s = true ↔ v = Some (EntryString s).
Proof.
  destruct v as [[f|t]|]; simpl; try (split; [discriminate | congruence]).
  rewrite String.eqb_eq. split; congruence.
Qed.

Lemma isPrivate_true (formData : FormData) :
  isPrivate formData = true
  ↔ FormData_get "private" formData = Some (EntryString "on")
    ∨ FormData_get "private" formData = Some (EntryString "true").
Proof. unfold isPrivate. by rewrite orb_true_iff, !strict_eq_true. Qed.

(** X5.  For a submitted file that has a name, [uploadAction] sends
    exactly one request: a PutObject to the bucket named by
    [AWS_BUCKET_NAME] (the empty string when unset), under the key
    "test/" followed by the file's name, with the file's bytes as body and
    its type as content type.  The key always lies under the prefix
    "test", the one [UploadPage] lists. *)
Theorem uploadAction_sends_the_file
    {P : Type} `{S3Sdk P} (env : Env) (formData : FormData) (f : File.t)
    (w : World P) :
  FormData_get "file" formData = Some (EntryFile f) →
  File.name f ≠ "" →
  ∃ input,
    calls (uploadAction env formData w).2
    = calls w ++ [Send (s3Client env) (PutObjectCommand input)]
    ∧ PutObjectCommandInput.Bucket input = or_empty (env !! "AWS_BUCKET_NAME")
    ∧ PutObjectCommandInput.Key input = "test/" +:+ File.name f
    ∧ PutObjectCommandInput.Body input = Some (Buffer (File.content f))
    ∧ PutObjectCommandInput.ContentType input = Some (File.type f)
    ∧ key_starts_with "test" (Some (PutObjectCommandInput.Key input)) = true.
Proof.
  intros Hfile Hname. exists (upload_request env formData f).
  rewrite (uploadAction_named_run env formData f w Hfile Hname).
  split; [by destruct (s3_send_put _ _ _) as [[e|u] p'] |].
  do 4 (split; [reflexivity |]).
  apply (prefix_append "test" ("/" +:+ File.name f)).
Qed.

Lemma uploadAction_sends_the_file_witness :
  ∃ input,
    calls (uploadAction Sample.env SampleForm.public_form
             (RefS3.world Sample.empty_store)).2
    = [Send (s3Client Sample.env) (PutObjectCommand input)]
    ∧ PutObjectCommandInput.Bucket input = "teqhire-store-dev"
    ∧ PutObjectCommandInput.Key input = "test/a.png".
Proof.
  destruct (@uploadAction_sends_the_file RefS3.t RefS3.sdk Sample.env
              SampleForm.public_form SampleForm.photo
              (RefS3.world Sample.empty_store) eq_refl)
    as (input & Hcalls & Hbucket & Hkey & _).
  { discriminate. }
  exists input. split; [exact Hcalls |]. split; [exact Hbucket | exact Hkey].
Defined.

(** X6.  The request [uploadAction] sends always carries an ACL, "private"
    or "public-read"; it is "private" exactly when the form's "private"
    field is the text "on" or the text "true".  Any other value, and a
    missing field, upload the file as "public-read". *)
Theorem uploadAction_acl_follows_private_field
    {P : Type} `{S3Sdk P} (env : Env) (formData : FormData) (f : File.t)
    (w : World P) :
  FormData_get "file" formData = Some (EntryFile f) →
  File.name f ≠ "" →
  ∃ input,
    calls (uploadAction env formData w).2
    = calls w ++ [Send (s3Client env) (PutObjectCommand input)]
    ∧ (PutObjectCommandInput.ACL input = Some "private"
       ∨ PutObjectCommandInput.ACL input = Some "public-read")
    ∧ (PutObjectCommandInput.ACL input = Some "private"
       ↔ FormData_get "private" formData = Some (EntryString "on")
         ∨ FormData_get "private" formData = Some (EntryString "true")).
Proof.
  intros Hfile Hname. exists (upload_request env formData f).
  rewrite (uploadAction_named_run env formData f w Hfile Hname).
  split; [by destruct (s3_send_put _ _ _) as [[e|u] p'] |].
  rewrite <- isPrivate_true. unfold upload_request. simpl.
  destruct (isPrivate formData); split; auto; split; congruence.
Qed.

Lemma uploadAction_acl_follows_private_field_witness :
  (∃ input,
     calls (uploadAction Sample.env SampleForm.private_form
              (RefS3.world Sample.empty_store)).2
     = [Send (s3Client Sample.env) (PutObjectCommand input)]
     ∧ PutObjectCommandInput.ACL input = Some "private")
  ∧ (∃ input,
       calls (uploadAction Sample.env SampleForm.public_form
                (RefS3.world Sample.empty_store)).2
       = [Send (s3Client Sample.env) (PutObjectCommand input)]
       ∧ PutObjectCommandInput.ACL input = Some "public-read").
Proof.
  split.
  - destruct (@uploadAction_acl_follows_private_field RefS3.t RefS3.sdk
                Sample.env SampleForm.private_form SampleForm.photo
                (RefS3.world Sample.empty_store) eq_refl)
      as (input & Hcalls & _ & Hprivate).
    { discriminate. }
    exists input. split; [exact Hcalls |]. apply Hprivate. by left.
  - destruct (@uploadAction_acl_follows_private_field RefS3.t RefS3.sdk
                Sample.env SampleForm.public_form SampleForm.photo
                (RefS3.world Sample.empty_store) eq_refl)
      as (input & Hcalls & [Hacl|Hacl] & Hprivate).
    { discriminate. }
    + apply Hprivate in Hacl as [Hon|Htrue]; discriminate.
    + exists input. by split.
Defined.

(** X7.  [uploadAction] revalidates "/upload" once, and only after the
    provider has accepted the upload.  When the provider refuses it, the
    handler throws the provider's error unchanged and revalidates
    nothing. *)
Theorem uploadAction_revalidates_after_upload
    {P : Type} `{S3Sdk P} (env : Env) (formData : FormData) (f : File.t)
    (w : World P) :
  FormData_get "file" formData = Some (EntryFile f) →
  File.name f ≠ "" →
  (∀ u p',
     s3_send_put (s3Client env) (upload_request env formData f) (provider w)
     = (inr u, p') →
     ∃ w', uploadAction env formData w = (Ok tt, w')
           ∧ revalidated w' = revalidated w ++ ["/upload"])
  ∧ (∀ e p',
       s3_send_put (s3Client env) (upload_request env formData f) (provider w)
       = (inl e, p') →
       ∃ w', uploadAction env formData w = (Throw e, w')
             ∧ revalidated w' = revalidated w
             ∧ length (calls w') = S (length (calls w))).
Proof.
  intros Hfile Hname.
  rewrite (uploadAction_named_run env formData f w Hfile Hname).
  split.
  - intros u p' ->. eexists. by split.
  - intros e p' ->. eexists. split; [reflexivity |]. split; [reflexivity |].
    simpl. rewrite length_app. simpl. lia.
Qed.

Lemma uploadAction_revalidates_after_upload_witness :
  (∃ w', uploadAction Sample.env SampleForm.public_form
           (RefS3.world Sample.empty_store) = (Ok tt, w')
         ∧ revalidated w' = ["/upload"])
  ∧ (∃ w', uploadAction Sample.env SampleForm.public_form
             (RefS3.world Sample.down) = (Throw Sample.access_denied, w')
           ∧ revalidated w' = []).
Proof.
  split.
  - destruct (@uploadAction_revalidates_after_upload RefS3.t RefS3.sdk
                Sample.env SampleForm.public_form SampleForm.photo
                (RefS3.world Sample.empty_store) eq_refl) as [Hok _].
    { discriminate. }
    destruct (Hok tt _ eq_refl) as (w' & Hrun & Hrevalidated).
    by exists w'.
  - destruct (@uploadAction_revalidates_after_upload RefS3.t RefS3.sdk
                Sample.env SampleForm.public_form SampleForm.photo
                (RefS3.world Sample.down) eq_refl) as [_ Herr].
    { discriminate. }
    destruct (Herr Sample.access_denied Sample.down eq_refl)
      as (w' & Hrun & Hrevalidated & _).
    by exists w'.
Defined.

(** X8.  An entry whose name is falsy (a file with the empty name, as a
    browser submits when no file was chosen, or a text value in place of a
    file) is refused with the error "File name is required": no request is
    made and no path is revalidated. *)
Theorem uploadAction_requires_name
    {P : Type} `{S3Sdk P} (env : Env) (formData : FormData)
    (entry : FormDataEntryValue) (w : World P) :
  FormData_get "file" formData = Some entry →
  truthy (entry_name entry) = false →
  ∃ w', uploadAction env formData w = (Throw (Error "File name is required"), w')
        ∧ calls w' = calls w
        ∧ revalidated w' = revalidated w
        ∧ provider w' = provider w.
Proof.
  intros Hfile Hname.
  destruct (uploadAction_unnamed_run env formData entry w Hfile Hname)
    as (logged & ->).
  eexists. by repeat split.
Qed.

Lemma uploadAction_requires_name_witness :
  (uploadAction Sample.env SampleForm.unnamed_form
     (RefS3.world Sample.empty_store)).1 = Throw (Error "File name is required")
  ∧ (uploadAction Sample.env SampleForm.text_form
       (RefS3.world Sample.empty_store)).1 = Throw (Error "File name is required").
Proof.
  split.
  - destruct (@uploadAction_requires_name RefS3.t RefS3.sdk Sample.env
                SampleForm.unnamed_form (EntryFile SampleForm.nothing_chosen)
                (RefS3.world Sample.empty_store) eq_refl eq_refl)
      as (w' & -> & _).
    reflexivity.
  - destruct (@uploadAction_requires_name RefS3.t RefS3.sdk Sample.env
                SampleForm.text_form (EntryString "a.png")
                (RefS3.world Sample.empty_store) eq_refl eq_refl)
      as (w' & -> & _).
    reflexivity.
Defined.

(** X9.  An empty file that has a name is uploaded all the same: the
    handler logs "File is empty" first and then sends the PutObject with
    an empty body. *)
Theorem uploadAction_uploads_empty_file
    {P : Type} `{S3Sdk P} (env : Env) (formData : FormData) (f : File.t)
    (w : World P) :
  FormData_get "file" formData = Some (EntryFile f) →
  File.content f = [] →
  File.name f ≠ "" →
  ∃ input logged,
    calls (uploadAction env formData w).2
    = calls w ++ [Send (s3Client env) (PutObjectCommand input)]
    ∧ PutObjectCommandInput.Body input = Some (Buffer [])
    ∧ console (uploadAction env formData w).2
      = console w ++ (LError, [AStr "File is empty"]) :: logged.
Proof.
  intros Hfile Hempty Hname. exists (upload_request env formData f).
  rewrite (uploadAction_named_run env formData f w Hfile Hname).
  unfold File.size. rewrite Hempty. simpl.
  destruct (s3_send_put _ _ _) as [[e|u] p']; eexists;
    (split; [reflexivity |]); (split; [by unfold upload_request; rewrite Hempty |]);
    reflexivity.
Qed.

Lemma uploadAction_uploads_empty_file_witness :
  ∃ input logged,
    calls (uploadAction Sample.env SampleForm.empty_form
             (RefS3.world Sample.empty_store)).2
    = [Send (s3Client Sample.env) (PutObjectCommand input)]
    ∧ PutObjectCommandInput.Body input = Some (Buffer [])
    ∧ console (uploadAction Sample.env SampleForm.empty_form
                 (RefS3.world Sample.empty_store)).2
      = (LError, [AStr "File is empty"]) :: logged.
Proof.
  destruct (@uploadAction_uploads_empty_file RefS3.t RefS3.sdk Sample.env
              SampleForm.empty_form SampleForm.empty_named
              (RefS3.world Sample.empty_store) eq_refl eq_refl)
    as (input & logged & Hcalls & Hbody & Hconsole).
  { discriminate. }
  by exists input, logged.
Defined.

(** * Further properties of [UploadPage] *)

Lemma UploadPage_calls_witness :
  ∃ fileUrls w',
    UploadPage Sample.env Sample.mime (Some "on") [1; 0]%nat
      (RefS3.world Sample.store) = (Ok fileUrls, w')
    ∧ calls w'
      = [list_call Sample.env "teqhire-store-dev" "test";
         sign_call Sample.env
           (describe (RefS3.to_item (Sample.object "test/a.png")));
         sign_call Sample.env
           (describe (RefS3.to_item (Sample.object "test/c.pdf")))].
Proof.
  eexists _, _. split; [vm_compute; reflexivity |].
  refine (@UploadPage_calls RefS3.t RefS3.sdk Sample.env Sample.mime
            (Some "on") [1; 0]%nat (RefS3.world Sample.store) _ _
            [describe (RefS3.to_item (Sample.object "test/a.png"));
             describe (RefS3.to_item (Sample.object "test/c.pdf"))]
            _ _ _); vm_compute; reflexivity.
Defined.

(** X10.  A listing that fails ends the page: [UploadPage] throws the
    provider's error, having made the one list request and no
    [getSignedUrl] request, whatever [unhide] and the schedule are. *)
Theorem UploadPage_listing_failure
    {P : Type} `{S3Sdk P} (env : Env) (lookup : string → option string)
    (unhide : option string) (schedule : list nat) (w : World P)
    (e : Exn) (p' : P) :
  s3_send_list (s3Client env) (list_command "teqhire-store-dev" "test")
    (provider w) = (inl e, p') →
  UploadPage env lookup unhide schedule w
  = (Throw e,
     mkWorld p' (calls w ++ [list_call env "teqhire-store-dev" "test"])
       (console w ++ [(LError, [AStr "Error listing S3 files:"; AExn e])])
       (revalidated w)).
Proof.
  intros Hsend. unfold UploadPage. apply bind_throw.
  by rewrite listFilesInS3Path_run, Hsend.
Qed.

Lemma UploadPage_listing_failure_witness :
  (UploadPage Sample.env Sample.mime (Some "on") [] (RefS3.world Sample.down)).1
  = Throw Sample.access_denied.
Proof.
  rewrite (@UploadPage_listing_failure RefS3.t RefS3.sdk Sample.env Sample.mime
             (Some "on") [] (RefS3.world Sample.down) Sample.access_denied
             Sample.down eq_refl).
  reflexivity.
Defined.

Section PublicMode.
Context {P : Type} `{S3Sdk P}.
Variable env : Env.
Variable lookup : string → option string.
Variable unhide : option string.
Hypothesis public : is_on unhide = false.

(** In public mode every promise is fulfilled when [files.map] returns,
    and the provider has not been touched. *)
Lemma map_start_public (files : list Descriptor.t) (w : World P) :
  ∃ w', map_start env lookup unhide files w
        = (Ok (Fulfilled <$> (public_fileUrl env lookup <$> files)), w')
        ∧ provider w' = provider w.
Proof.
  revert w. induction files as [|file files IH]; intros w.
  - by exists w.
  - simpl. unfold callback_start at 1. rewrite public.
    erewrite bind_ok by reflexivity.
    set (w1 := mkWorld _ _ _ _).
    destruct (IH w1) as (w2 & Hrest & Hprovider).
    exists w2. split; [| exact Hprovider].
    by rewrite (bind_ok _ _ _ _ _ Hrest).
Qed.

(** Completions find nothing to do in a pool without pending promises. *)
Lemma foldl_complete_settled_pool (l : list nat) (pool : list Promise)
    (rejection : option Exn) (w : World P) :
  Forall (λ p, is_pending p = false) pool →
  foldl (complete env) (pool, rejection, w) l = (pool, rejection, w).
Proof.
  intros Hsettled. induction l as [|j l IH]; [done |].
  cbn [foldl]. rewrite complete_other; [exact IH |].
  intros p Hp. rewrite Forall_lookup in Hsettled. by eapply Hsettled.
Qed.

Lemma promise_all_fulfilled (schedule : list nat) (values : list FileUrl.t)
    (w : World P) :
  promise_all env schedule (Fulfilled <$> values) w = (Ok values, w).
Proof.
  unfold promise_all, run_schedule.
  rewrite foldl_complete_settled_pool by (by apply Forall_fmap, Forall_true).
  f_equal. f_equal. induction values as [|v values IH]; [done |].
  simpl. f_equal. exact IH.
Qed.

Lemma UploadPage_public_run (files : list Descriptor.t) (w w1 : World P) :
  listFilesInS3Path env "teqhire-store-dev" "test" w = (Ok files, w1) →
  ∃ w', provider w' = provider w1
        ∧ ∀ schedule,
            UploadPage env lookup unhide schedule w
            = (Ok (public_fileUrl env lookup <$> files), w').
Proof.
  intros Hlist.
  destruct (map_start_public files
              (mkWorld (provider w1) (calls w1)
                 (console w1 ++ [(LLog, [AStr "Files in S3:"; AFiles files])])
                 (revalidated w1)))
    as (w3 & Hstart & Hprovider).
  exists (mkWorld (provider w3) (calls w3)
            (console w3
             ++ [(LLog, [AStr "Public URLs:";
                         AUrls (public_fileUrl env lookup <$> files)])])
            (revalidated w3)).
  split; [exact Hprovider |].
  intros schedule. unfold UploadPage. rewrite (bind_ok _ _ _ _ _ Hlist).
  erewrite bind_ok by reflexivity.
  rewrite (bind_ok _ _ _ _ _ Hstart).
  rewrite (bind_ok _ _ _ _ _ (promise_all_fulfilled schedule _ w3)).
  reflexivity.
Qed.
End PublicMode.

(** X12.  In public mode ([unhide] other than "on") the page needs the
    provider for the listing only: for every schedule it returns, and
    [fileUrls] is the listing mapped file by file to its key, size, date,
    MIME type and public URL; the schedule makes no difference. *)
Theorem UploadPage_public_mode
    {P : Type} `{S3Sdk P} (env : Env) (lookup : string → option string)
    (unhide : option string) (schedule : list nat) (w w1 : World P)
    (files : list Descriptor.t) :
  is_on unhide = false →
  listFilesInS3Path env "teqhire-store-dev" "test" w = (Ok files, w1) →
  (∃ w', UploadPage env lookup unhide schedule w
         = (Ok (public_fileUrl env lookup <$> files), w')
         ∧ provider w' = provider w1)
  ∧ UploadPage env lookup unhide schedule w = UploadPage env lookup unhide [] w.
Proof.
  intros Hpublic Hlist.
  destruct (UploadPage_public_run env lookup unhide Hpublic files w w1 Hlist)
    as (w' & Hprovider & Hrun).
  split; [exists w'; by split |]. by rewrite !Hrun.
Qed.

Lemma UploadPage_public_mode_witness :
  ∃ w', UploadPage Sample.env Sample.mime None [1; 0]%nat
          (RefS3.world Sample.store)
        = (Ok (public_fileUrl Sample.env Sample.mime
               <$> [describe (RefS3.to_item (Sample.object "test/a.png"));
                    describe (RefS3.to_item (Sample.object "test/c.pdf"))]), w').
Proof.
  refine (let '(ex_intro _ w' (conj Hpage _)) :=
            proj1 (@UploadPage_public_mode RefS3.t RefS3.sdk Sample.env
                     Sample.mime None [1; 0]%nat (RefS3.world Sample.store) _
                     [describe (RefS3.to_item (Sample.object "test/a.png"));
                      describe (RefS3.to_item (Sample.object "test/c.pdf"))]
                     _ _) in
          ex_intro _ w' Hpage); vm_compute; reflexivity.
Defined.

Section PoolInvariant.
Context {P : Type} `{S3Sdk P}.
Variable env : Env.
Variable lookup : string → option string.
Variable unhide : option string.

(** A relation between a file and the promise at its index that the
    resumption of a callback keeps is kept by every completion. *)
Variable R : Descriptor.t → Promise → Prop.
Hypothesis R_settle :
  ∀ file f mimeType command expiresIn answer,
    R file (Pending f mimeType command expiresIn) →
    R file (settle f mimeType answer).

Lemma complete_invariant (files : list Descriptor.t) (st : Joining) (j : nat) :
  Forall2 R files st.1.1 → Forall2 R files (complete env st j).1.1.
Proof.
  destruct st as [[pool rejection] w]. intros Hall. simpl in Hall.
  destruct (pool !! j) as [[f mimeType command expiresIn|v|e]|] eqn:Hp;
    try (rewrite complete_other; [exact Hall |]; intros p' ?; by simplify_eq).
  rewrite (complete_pending _ _ _ _ _ _ _ _ _ Hp).
  destruct (Forall2_lookup_r _ _ _ _ _ Hall Hp) as (file & Hfile & Hfor).
  destruct (s3_getSignedUrl _ _ _ _) as [answer p']. simpl.
  rewrite <- (list_insert_id files j file Hfile).
  apply Forall2_insert; [exact Hall |]. by eapply R_settle.
Qed.

Lemma foldl_complete_invariant (files : list Descriptor.t) (l : list nat)
    (st : Joining) :
  Forall2 R files st.1.1 → Forall2 R files (foldl (complete env) st l).1.1.
Proof.
  revert st. induction l as [|j l IH]; intros st Hall; [done |].
  cbn [foldl]. by apply IH, complete_invariant.
Qed.

Lemma omap_fulfilled_invariant (files : list Descriptor.t)
    (pool : list Promise) :
  Forall2 R files pool →
  Forall (λ p, is_pending p = false) pool →
  Forall (λ p, is_rejected p = false) pool →
  Forall2 (λ file r, R file (Fulfilled r)) files (omap fulfilled_value pool).
Proof.
  induction 1 as [|file p files pool Hfor Hall IH]; [constructor |].
  intros [Hpending Hpendings]%Forall_cons [Hrejected Hrejecteds]%Forall_cons.
  destruct p as [| value |]; try done.
  simpl. constructor; [exact Hfor | by apply IH].
Qed.

(** What [Promise.all] fulfils with keeps the relation, file by file. *)
Lemma promise_all_invariant (schedule : list nat) (files : list Descriptor.t)
    (pool : list Promise) (w w' : World P) (fileUrls : list FileUrl.t) :
  Forall2 R files pool →
  Forall (λ p, is_rejected p = false) pool →
  promise_all env schedule pool w = (Ok fileUrls, w') →
  Forall2 (λ file r, R file (Fulfilled r)) files fileUrls.
Proof.
  intros Hall Hrejected. unfold promise_all, run_schedule.
  set (l := schedule ++ seq 0 (length pool)).
  pose proof (foldl_complete_invariant files l (pool, None, w) Hall) as Hfor.
  pose proof (foldl_complete_rejection env l (pool, None, w) (λ _, Hrejected))
    as Hrej.
  pose proof (foldl_complete_length env l (pool, None, w)) as Hlen.
  pose proof (foldl_complete_settles env l (pool, None, w)) as Hsettles.
  destruct (foldl (complete env) (pool, None, w) l) as [[pool' rejection] w1].
  simpl in *. destruct rejection as [e|]; [discriminate |].
  intros [= <- <-].
  apply omap_fulfilled_invariant; [exact Hfor | | by apply Hrej].
  apply Forall_lookup. intros j p Hp. apply (Hsettles j p); [| exact Hp].
  apply elem_of_app. right. apply elem_of_seq.
  apply lookup_lt_Some in Hp. lia.
Qed.
End PoolInvariant.

Section Metadata.
Context {P : Type} `{S3Sdk P}.
Variable env : Env.
Variable lookup : string → option string.
Variable unhide : option string.

Lemma settle_meta file f mimeType command expiresIn answer :
  promise_meta lookup file (Pending f mimeType command expiresIn) →
  promise_meta lookup file (settle f mimeType answer).
Proof.
  intros [-> ->]. destruct answer as [e|url]; simpl; [done |].
  by repeat split.
Qed.

Lemma map_start_meta (files : list Descriptor.t) (w : World P) :
  ∀ pool w', map_start env lookup unhide files w = (Ok pool, w') →
             Forall2 (promise_meta lookup) files pool.
Proof.
  revert w. induction files as [|file files IH]; intros w pool w' Hrun.
  - injection Hrun as <- _. constructor.
  - simpl in Hrun.
    apply bind_ok_inv in Hrun as (p & w1 & Hstart & Hrun).
    apply bind_ok_inv in Hrun as (ps & w2 & Hrest & Hret).
    injection Hret as <- _. constructor; [| by eapply IH].
    unfold callback_start in Hstart. async_unfold. simpl in Hstart.
    destruct (is_on unhide); simpl in Hstart; injection Hstart as <- _;
      by repeat split.
Qed.
End Metadata.

(** X13.  Whatever the mode and the order in which the requests complete,
    [fileUrls] lists the files in listing order, and every entry carries
    the key, the size and the date of the listed file at its index, and
    the MIME type [lookup] gives for that key. *)
Theorem UploadPage_keeps_listing_fields
    {P : Type} `{S3Sdk P} (env : Env) (lookup : string → option string)
    (unhide : option string) (schedule : list nat) (w w1 w' : World P)
    (files : list Descriptor.t) (fileUrls : list FileUrl.t) :
  listFilesInS3Path env "teqhire-store-dev" "test" w = (Ok files, w1) →
  UploadPage env lookup unhide schedule w = (Ok fileUrls, w') →
  FileUrl.key <$> fileUrls = Descriptor.key <$> files
  ∧ FileUrl.size <$> fileUrls = Descriptor.size <$> files
  ∧ FileUrl.lastModified <$> fileUrls = Descriptor.lastModified <$> files
  ∧ FileUrl.mimeType <$> fileUrls = (λ file, Descriptor.key file ≫= lookup) <$> files.
Proof.
  intros Hlist Hpage. unfold UploadPage in Hpage.
  rewrite (bind_ok _ _ _ _ _ Hlist) in Hpage.
  apply bind_ok_inv in Hpage as ([] & w2 & _ & Hpage).
  destruct (map_start_run env lookup unhide files w2)
    as (pool & w3 & Hstart & _ & Hrejected).
  pose proof (map_start_meta env lookup unhide files w2 pool w3 Hstart) as Hmeta.
  rewrite (bind_ok _ _ _ _ _ Hstart) in Hpage.
  apply bind_ok_inv in Hpage as (urls & w4 & Hjoin & Hpage).
  apply bind_ok_inv in Hpage as ([] & w5 & _ & Hret).
  injection Hret as -> _.
  pose proof (promise_all_invariant env (promise_meta lookup)
                (settle_meta lookup) schedule files pool w3 w4 fileUrls
                Hmeta Hrejected Hjoin) as Hall.
  clear -Hall. induction Hall as [|file r files fileUrls Hr Hall IH].
  - done.
  - destruct Hr as (Hkey & Hsize & Hdate & Hmime).
    destruct IH as (IHkey & IHsize & IHdate & IHmime).
    repeat split; simpl; by f_equal.
Qed.

Lemma UploadPage_keeps_listing_fields_witness :
  ∃ fileUrls w',
    UploadPage Sample.env Sample.mime (Some "on") [1; 0]%nat
      (RefS3.world Sample.store) = (Ok fileUrls, w')
    ∧ FileUrl.key <$> fileUrls = [Some "test/a.png"; Some "test/c.pdf"]
    ∧ FileUrl.mimeType <$> fileUrls = [Some "image/png"; None].
Proof.
  eexists _, _. split; [vm_compute; reflexivity |].
  refine (let Hfields :=
            @UploadPage_keeps_listing_fields RefS3.t RefS3.sdk Sample.env
              Sample.mime (Some "on") [1; 0]%nat (RefS3.world Sample.store) _ _
              [describe (RefS3.to_item (Sample.object "test/a.png"));
               describe (RefS3.to_item (Sample.object "test/c.pdf"))]
              _ _ _ in
          conj (proj1 Hfields) (proj2 (proj2 (proj2 Hfields))));
    vm_compute; reflexivity.
Defined.

Section RejectionSource.
Context {P : Type} `{S3Sdk P}.
Variable env : Env.
Variable lookup : string → option string.
Variable unhide : option string.
Variable files : list Descriptor.t.

(** A recorded rejection is the provider's answer to the request of one of
    the listed files, and there is none outside signed mode. *)
Lemma complete_rejection_source (st : Joining) (j : nat) :
  Forall2 (promise_for env unhide) files st.1.1 →
  (∀ e, st.1.2 = Some e → is_on unhide = true ∧ rejected_by env files e) →
  ∀ e, (complete env st j).1.2 = Some e →
       is_on unhide = true ∧ rejected_by env files e.
Proof.
  destruct st as [[pool rejection] w]. intros Hall Hsource. simpl in Hall, Hsource.
  destruct (pool !! j) as [[f mimeType command expiresIn|v|e']|] eqn:Hp;
    try (rewrite complete_other; [exact Hsource |]; intros p' ?; by simplify_eq).
  rewrite (complete_pending _ _ _ _ _ _ _ _ _ Hp).
  destruct (Forall2_lookup_r _ _ _ _ _ Hall Hp) as (file & Hfile & Hfor).
  destruct Hfor as (-> & -> & -> & Hon).
  destruct (s3_getSignedUrl _ _ _ _) as [answer p'] eqn:Hsign. simpl.
  destruct rejection as [e0|]; [exact Hsource |].
  destruct answer as [e0|url]; [| discriminate].
  intros e [= <-]. split; [exact Hon |].
  exists file, (provider w), p'. split; [| exact Hsign].
  by eapply list_elem_of_lookup_2.
Qed.

Lemma foldl_complete_rejection_source (l : list nat) (st : Joining) :
  Forall2 (promise_for env unhide) files st.1.1 →
  (∀ e, st.1.2 = Some e → is_on unhide = true ∧ rejected_by env files e) →
  ∀ e, (foldl (complete env) st l).1.2 = Some e →
       is_on unhide = true ∧ rejected_by env files e.
Proof.
  revert st. induction l as [|j l IH]; intros st Hall Hsource; [exact Hsource |].
  cbn [foldl]. apply IH.
  - by apply complete_promise_for.
  - by apply complete_rejection_source.
Qed.
End RejectionSource.

(** X14.  After a successful listing, [UploadPage] can fail in signed mode
    only, and the error it throws is the provider's answer to one of its
    own [getSignedUrl] requests, for the key of a listed file and a
    lifetime of 10 seconds: it is passed on unchanged. *)
Theorem UploadPage_failure_source
    {P : Type} `{S3Sdk P} (env : Env) (lookup : string → option string)
    (unhide : option string) (schedule : list nat) (w w1 w' : World P)
    (files : list Descriptor.t) (e : Exn) :
  listFilesInS3Path env "teqhire-store-dev" "test" w = (Ok files, w1) →
  UploadPage env lookup unhide schedule w = (Throw e, w') →
  is_on unhide = true ∧ rejected_by env files e.
Proof.
  intros Hlist Hpage. unfold UploadPage in Hpage.
  rewrite (bind_ok _ _ _ _ _ Hlist) in Hpage.
  erewrite bind_ok in Hpage by reflexivity.
  set (w2 := mkWorld _ _ _ _) in Hpage.
  destruct (map_start_run env lookup unhide files w2)
    as (pool & w3 & Hstart & Hfor & _).
  rewrite (bind_ok _ _ _ _ _ Hstart) in Hpage.
  rewrite bind_run in Hpage. unfold promise_all, run_schedule in Hpage.
  pose proof (foldl_complete_rejection_source env unhide files
                (schedule ++ seq 0 (length pool)) (pool, None, w3) Hfor)
    as Hsource.
  destruct (foldl _ _ _) as [[pool' rejection] w4]. simpl in Hsource.
  destruct rejection as [e0|]; [| discriminate].
  injection Hpage as <- _. by apply Hsource.
Qed.

Lemma UploadPage_failure_source_witness :
  ∃ w', @UploadPage NoSigner.t NoSigner.sdk Sample.env Sample.mime (Some "on")
          [1; 0]%nat (NoSigner.world Sample.store)
        = (Throw NoSigner.refused, w')
        ∧ @rejected_by NoSigner.t NoSigner.sdk Sample.env
            [describe (RefS3.to_item (Sample.object "test/a.png"));
             describe (RefS3.to_item (Sample.object "test/c.pdf"))]
            NoSigner.refused.
Proof.
  eexists. split; [vm_compute; reflexivity |].
  refine (proj2 (@UploadPage_failure_source NoSigner.t NoSigner.sdk Sample.env
                   Sample.mime (Some "on") [1; 0]%nat
                   (NoSigner.world Sample.store) _ _
                   [describe (RefS3.to_item (Sample.object "test/a.png"));
                    describe (RefS3.to_item (Sample.object "test/c.pdf"))]
                   _ _ _)); vm_compute; reflexivity.
Defined.

(** X15.  What the page shows for a file follows its MIME type: a file
    with a known type gets either the inline image (type under "image/")
    or the "Download" link, never both; a file whose type [lookup] does
    not know gets neither. *)
Theorem image_or_download (mimeType : option string) :
  shows_image mimeType && shows_download mimeType = false
  ∧ shows_image mimeType || shows_download mimeType = truthy mimeType
  ∧ (shows_image mimeType = true
     ↔ ∃ s, mimeType = Some s ∧ String.prefix "image/" s = true).
Proof.
  unfold shows_image, shows_download.
  destruct mimeType as [s|]; simpl.
  - destruct (String.eqb_spec s "") as [->|Hs]; simpl.
    + split; [done |]. split; [done |].
      split; [done | intros (s & [= <-] & Hprefix); discriminate].
    + destruct (String.prefix "image/" s) eqn:Hprefix; simpl.
      * split; [done |]. split; [done |]. split; [| done].
        intros _. by exists s.
      * split; [done |]. split; [done |].
        split; [done | intros (s' & [= <-] & Hp); congruence].
  - split; [done |]. split; [done |].
    split; [done | intros (s & Hs & _); discriminate].
Qed.
